(** * Global Snippets: the versioned snippet store of [global-snippets.js]

    A shallow embedding of [StorageManager] (cache, localStorage mirror,
    single-flight remote push), of the import, clear and sync handlers of
    [UIManager], of [SnippetManager.renderSnippet], and of [Utils.debounce]
    as [SnippetManager.setupAutoSave] uses it, followed by the properties of
    the version ledger, of the persistence tiers and of the auto-save
    timer.

    Conventions of the embedding.
    - A JS number that holds an index or a counter is a [Z]; the snippet
      collection (a plain object used as a map from snippet ids) is the
      [gmap string Snippet] of its own properties, looked up through
      [JS.member], which also answers for the members inherited from
      [Object.prototype]; arrays are lists; JSON text is the value it parses
      to, or [Malformed]. Stored or received JSON is a collection of
      snippets: other JSON values are not modelled.
    - The collection object has an identity ([oid]): [getAllSnippets] hands
      out the cached object itself, and the mutating methods write through
      that one reference.
    - Every method runs from one suspension point to the next without
      interleaving.  [await fetch] inside [saveToAPI] is the one suspension
      point the callers treat differently, so [saveToAPI] is split there into
      [saveToAPI_begin] and [saveToAPI_settle].  [getAllSnippets] is modelled
      through its [await fetchFromAPI()] in one step: calls of the manager
      that overlap while the cache is still empty are not modelled.
    - The browser's DOM is not modelled beyond what is stated where it is
      used: the page update of [renderSnippet] is a parameter.
    - What the browser decides during one call (the clock, the answer of
      the remote API, whether [localStorage.setItem] throws) is read from an
      [Env]; every call gets its own. *)

From stdpp Require Import gmap strings list fin_maps.
From Stdlib Require Import ZArith Lia.

Local Open Scope Z_scope.

(** ** JS array primitives *)

Module JS.

(** [arr[k]] for an integral [k]: [undefined] (here [None]) out of range. *)
Definition index {A} (arr : list A) (k : Z) : option A :=
  if k <? 0 then None else arr !! Z.to_nat k.

(** [arr.slice(start)]: a negative [start] counts from the end and is
    clamped at the front, a non-negative one is clamped at the length. *)
Definition slice {A} (arr : list A) (start : Z) : list A :=
  let len := Z.of_nat (length arr) in
  let k := if start <? 0 then Z.max (len + start) 0 else Z.min start len in
  drop (Z.to_nat k) arr.

(** [arr.push(x)] *)
Definition push {A} (arr : list A) (x : A) : list A := arr ++ [x].

(** [arr.length] *)
Definition length {A} (arr : list A) : Z := Z.of_nat (List.length arr).

(** The property names of [Object.prototype]. A plain object answers a
    lookup of one of them with the inherited member (a function, or the
    prototype itself for [__proto__]) unless it has an own property of that
    name. *)
Definition object_prototype_names : list string :=
  ["constructor"; "__defineGetter__"; "__defineSetter__"; "hasOwnProperty";
   "__lookupGetter__"; "__lookupSetter__"; "isPrototypeOf";
   "propertyIsEnumerable"; "toString"; "valueOf"; "__proto__";
   "toLocaleString"].

Definition inherited (key : string) : bool :=
  existsb (String.eqb key) object_prototype_names.

(** [obj[key]] on a plain object with the own properties [own]: an own
    property, an inherited member (truthy, and without the fields of a
    snippet), or [undefined]. *)
Inductive Member (A : Type) :=
| Own (a : A)
| Inherited
| Missing.
Arguments Own {A} a.
Arguments Inherited {A}.
Arguments Missing {A}.

Definition member {A} (own : gmap string A) (key : string) : Member A :=
  match own !! key with
  | Some a => Own a
  | None => if inherited key then Inherited else Missing
  end.

(** What reading a property of [undefined] throws. *)
Definition TypeError : string := "TypeError: Cannot read properties of undefined".

End JS.

(** ** Data model *)

Record Version := mkVersion {
  version : Z;
  html : string;
  timestamp : string;
  author : string
}.

Record Snippet := mkSnippet {
  id : string;
  versions : list Version;
  currentVersion : Z
}.

(** The collection object: its identity and its own properties. *)
Record Snippets := mkSnippets {
  oid : nat;
  props : gmap string Snippet
}.

(** The [data] argument of [saveSnippet]: [{ html, author }], [author]
    possibly missing. *)
Record SaveData := mkSaveData {
  data_html : string;
  data_author : option string
}.

(** Text handed to [JSON.parse]: text it rejects, or the serialisation of a
    collection. *)
Inductive Blob :=
| Malformed
| Json (c : gmap string Snippet).

(** [StorageManager]'s two fields, the localStorage item under
    [CONFIG.storageKey] ([None]: no item, or the empty string, which
    [loadFromLocalStorage] does not parse), and the allocator of object
    identities. *)
Record State := mkState {
  cache : option Snippets;
  syncInProgress : bool;
  localStorage : option Blob;
  nextOid : nat
}.

(** [item.customContent]: missing or empty, text that [JSON.parse] rejects,
    or the serialisation of a snippet. *)
Inductive Content :=
| NoContent
| BadContent
| SnippetContent (parsed : Snippet).

Record Item := mkItem {
  item_id : string;
  customContent : Content
}.

(** The body of the API's answer: [null], an object with an [items] array,
    or any other object, which is then taken for the collection itself. *)
Inductive ApiData :=
| NullData
| ItemsData (items : list Item)
| PlainData (c : gmap string Snippet).

(** The browser's answers during one method call. *)
Record Env := mkEnv {
  now : string;                      (* new Date().toISOString() *)
  apiResponse : option ApiData;      (* the body of the GET's answer; None when
                                        the request fails, the status is not
                                        ok, or the body is not JSON *)
  setItemOk : bool;                  (* localStorage.setItem does not throw *)
  putOk : bool                       (* the PUT resolves with response.ok *)
}.

(** Observable actions, in program order. *)
Inductive Event :=
| EvFetch                                         (* GET issued by fetchFromAPI *)
| EvLocalGet                                      (* localStorage.getItem *)
| EvLocalSet (c : gmap string Snippet) (ok : bool)  (* localStorage.setItem *)
| EvPut (c : gmap string Snippet)                 (* PUT issued, body = snapshot *)
| EvPutDone (ok : bool)                           (* the PUT settled *)
| EvError (msg : string).                         (* Utils.error *)

Inductive result (A : Type) :=
| Ok (a : A)
| Err (msg : string).
Arguments Ok {A} a.
Arguments Err {A} msg.

(** ** The method monad: environment, state, trace, exceptions *)

Record Outcome (A : Type) := mkOutcome {
  res : result A;
  post : State;
  trace : list Event
}.
Arguments mkOutcome {A} res post trace.
Arguments res {A} o.
Arguments post {A} o.
Arguments trace {A} o.

Definition M (A : Type) : Type := Env -> State -> Outcome A.

#[global] Instance M_ret : MRet M :=
  fun A a _ st => mkOutcome (Ok a) st [].

#[global] Instance M_bind : MBind M :=
  fun A B f m env st =>
    match m env st with
    | mkOutcome (Ok a) st1 tr1 =>
        match f a env st1 with
        | mkOutcome r st2 tr2 => mkOutcome r st2 (tr1 ++ tr2)
        end
    | mkOutcome (Err e) st1 tr1 => mkOutcome (Err e) st1 tr1
    end.

Definition throw {A} (msg : string) : M A :=
  fun _ st => mkOutcome (Err msg) st [].

Definition ask : M Env := fun env st => mkOutcome (Ok env) st [].
Definition get : M State := fun _ st => mkOutcome (Ok st) st [].
Definition put (st : State) : M unit := fun _ _ => mkOutcome (Ok tt) st [].
Definition emit (e : Event) : M unit := fun _ st => mkOutcome (Ok tt) st [e].

Definition set_cache (c : option Snippets) (st : State) : State :=
  mkState c (syncInProgress st) (localStorage st) (nextOid st).
Definition set_syncInProgress (b : bool) (st : State) : State :=
  mkState (cache st) b (localStorage st) (nextOid st).
Definition set_localStorage (l : option Blob) (st : State) : State :=
  mkState (cache st) (syncInProgress st) l (nextOid st).

(** Allocation of a fresh object holding [c]. *)
Definition new_object (c : gmap string Snippet) : M Snippets :=
  fun _ st =>
    mkOutcome (Ok (mkSnippets (nextOid st) c))
              (mkState (cache st) (syncInProgress st) (localStorage st) (S (nextOid st)))
              [].

(** ** StorageManager *)

(** [loadFromLocalStorage]: an absent or empty item gives the empty
    collection, and so does text that does not parse, after logging. *)
Definition loadFromLocalStorage : M (gmap string Snippet) :=
  st ← get;
  emit EvLocalGet;;
  match localStorage st with
  | Some (Json c) => mret c
  | Some Malformed => emit (EvError "Failed to load from localStorage");; mret ∅
  | None => mret ∅
  end.

(** [saveToLocalStorage]: the whole collection is written as one item; a
    throwing [setItem] is logged and swallowed. *)
Definition saveToLocalStorage (data : gmap string Snippet) : M unit :=
  env ← ask;
  st ← get;
  emit (EvLocalSet data (setItemOk env));;
  if setItemOk env
  then put (set_localStorage (Some (Json data)) st)
  else emit (EvError "Failed to save to localStorage").

(** The [forEach] over [data.items], starting from the entries set so far.
    Items carry the ids the service issues; an item named ["__proto__"],
    whose assignment would set the prototype and add no entry, is not
    modelled. *)
Fixpoint parse_items (items : list Item) (snippets : gmap string Snippet) : M (gmap string Snippet) :=
  match items with
  | [] => mret snippets
  | item :: rest =>
      match customContent item with
      | NoContent => parse_items rest snippets
      | BadContent =>
          emit (EvError "Failed to parse snippet data");;
          parse_items rest snippets
      | SnippetContent parsed =>
          parse_items rest (<[item_id item := parsed]> snippets)
      end
  end.

(** [parseAPIResponse] *)
Definition parseAPIResponse (data : ApiData) : M (gmap string Snippet) :=
  match data with
  | ItemsData items => parse_items items ∅
  | PlainData c => mret c
  | NullData => mret ∅
  end.

(** [fetchFromAPI]: the answer's body goes through [parseAPIResponse];
    every failure is caught inside and becomes [null]. *)
Definition fetchFromAPI : M (option (gmap string Snippet)) :=
  env ← ask;
  emit EvFetch;;
  match apiResponse env with
  | Some data =>
      snippets ← parseAPIResponse data;
      mret (Some snippets)
  | None => mret None
  end.

(** [getAllSnippets], run through its [await] without another call of the
    manager in between. *)
Definition getAllSnippets : M Snippets :=
  st ← get;
  match cache st with
  | Some c => mret c
  | None =>
      apiData ← fetchFromAPI;
      match apiData with
      | Some d =>
          o ← new_object d;
          st ← get;
          put (set_cache (Some o) st);;
          saveToLocalStorage d;;
          mret o
      | None =>
          localData ← loadFromLocalStorage;
          o ← new_object localData;
          st ← get;
          put (set_cache (Some o) st);;
          mret o
      end
  end.

(** What [saveToAPI] has done when it first yields: nothing (a push was
    already in flight) or a PUT that is still pending. *)
Inductive Push :=
| Skipped
| Pending.

(** [saveToAPI] up to [await fetch(...)]. *)
Definition saveToAPI_begin (data : gmap string Snippet) : M Push :=
  st ← get;
  if syncInProgress st
  then mret Skipped
  else
    put (set_syncInProgress true st);;
    emit (EvPut data);;
    mret Pending.

(** [saveToAPI] from the moment the PUT settles: [catch] logs and rethrows,
    [finally] releases the flag. *)
Definition saveToAPI_settle (ok : bool) : M unit :=
  st ← get;
  emit (EvPutDone ok);;
  put (set_syncInProgress false st);;
  if ok
  then mret tt
  else emit (EvError "Failed to save to API");; throw "API save failed".

(** [await this.saveToAPI(data)] *)
Definition saveToAPI (data : gmap string Snippet) : M unit :=
  env ← ask;
  p ← saveToAPI_begin data;
  match p with
  | Skipped => mret tt
  | Pending => saveToAPI_settle (putOk env)
  end.

(** [promise.catch(handler)] and [try { .. } catch (e) { .. }] *)
Definition catch {A} (m : M A) (handler : string -> M A) : M A :=
  fun env st =>
    match m env st with
    | mkOutcome (Ok a) st1 tr1 => mkOutcome (Ok a) st1 tr1
    | mkOutcome (Err e) st1 tr1 =>
        match handler e env st1 with
        | mkOutcome r st2 tr2 => mkOutcome r st2 (tr1 ++ tr2)
        end
    end.

(** The pending promise of [this.saveToAPI(..).catch(e => Utils.error(..))]
    settling later, with nobody awaiting it. *)
Definition background_settle (ok : bool) : M unit :=
  st ← get;
  if syncInProgress st
  then catch (saveToAPI_settle ok)
             (fun _ => emit (EvError "Failed to save to API"))
  else mret tt.

(** [CONFIG]: the options the store and the auto-save read. *)
Record Config := mkConfig {
  maxVersionHistory : Z;
  autoSaveDelay : Z
}.

(** [data.author || 'unknown'] *)
Definition author_or_unknown (a : option string) : string :=
  match a with
  | Some s => if decide (s = "") then "unknown" else s
  | None => "unknown"
  end.

(** The record [saveSnippet] creates for an id it has not seen. *)
Definition empty_snippet (snippetId : string) : Snippet :=
  mkSnippet snippetId [] 0.

(** The [newVersion] literal of [saveSnippet]. *)
Definition new_version (snippet : Snippet) (data : SaveData) (ts : string) : Version :=
  mkVersion (JS.length (versions snippet)) (data_html data) ts
            (author_or_unknown (data_author data)).

(** What [saveSnippet] does to the snippet record: push, move the pointer,
    keep the last [maxVersionHistory] versions. *)
Definition append_version (cfg : Config) (snippet : Snippet) (newVersion : Version) : Snippet :=
  let pushed := JS.push (versions snippet) newVersion in
  let kept :=
    if JS.length pushed >? maxVersionHistory cfg
    then JS.slice pushed (- maxVersionHistory cfg)
    else pushed in
  mkSnippet (id snippet) kept (version newVersion).

(** [saveSnippet]: the remote push is started and not awaited. For a name
    the collection only inherits, [allSnippets[snippetId]] is truthy, no
    record is created, and reading [snippet.versions.length] throws. *)
Definition saveSnippet (cfg : Config) (snippetId : string) (data : SaveData) : M Version :=
  env ← ask;
  allSnippets ← getAllSnippets;
  match JS.member (props allSnippets) snippetId with
  | JS.Inherited => throw JS.TypeError
  | JS.Own _ | JS.Missing =>
      let snippet := default (empty_snippet snippetId) (props allSnippets !! snippetId) in
      let newVersion := new_version snippet data (now env) in
      let allSnippets :=
        mkSnippets (oid allSnippets)
                   (<[snippetId := append_version cfg snippet newVersion]> (props allSnippets)) in
      st ← get;
      put (set_cache (Some allSnippets) st);;
      saveToLocalStorage (props allSnippets);;
      saveToAPI_begin (props allSnippets);;
      mret newVersion
  end.

(** [deleteSnippet] *)
Definition deleteSnippet (snippetId : string) : M unit :=
  allSnippets ← getAllSnippets;
  let allSnippets :=
    mkSnippets (oid allSnippets) (delete snippetId (props allSnippets)) in
  st ← get;
  put (set_cache (Some allSnippets) st);;
  saveToLocalStorage (props allSnippets);;
  saveToAPI (props allSnippets).

(** [restoreVersion]. For a name the collection only inherits, the guard
    reads [snippet.versions[versionNumber]] of the inherited member and
    throws. *)
Definition restoreVersion (snippetId : string) (versionNumber : Z) : M Version :=
  allSnippets ← getAllSnippets;
  match JS.member (props allSnippets) snippetId with
  | JS.Missing => throw "Version not found"
  | JS.Inherited => throw JS.TypeError
  | JS.Own snippet =>
      match JS.index (versions snippet) versionNumber with
      | None => throw "Version not found"
      | Some v =>
          let snippet := mkSnippet (id snippet) (versions snippet) versionNumber in
          let allSnippets :=
            mkSnippets (oid allSnippets) (<[snippetId := snippet]> (props allSnippets)) in
          st ← get;
          put (set_cache (Some allSnippets) st);;
          saveToLocalStorage (props allSnippets);;
          saveToAPI (props allSnippets);;
          mret v
      end
  end.

(** The import handler of [UIManager.showImportExport]: the pasted text is
    parsed first, the merge is the spread [{...current, ...imported}] into a
    new object. An [Err] is what the handler's [catch] shows as status. *)
Definition importSnippets (importData : Blob) (confirmed : bool) : M unit :=
  match importData with
  | Malformed => throw "Invalid import data"
  | Json snippets =>
      if confirmed
      then
        currentSnippets ← getAllSnippets;
        mergedSnippets ← new_object (snippets ∪ props currentSnippets);
        st ← get;
        put (set_cache (Some mergedSnippets) st);;
        saveToLocalStorage (props mergedSnippets);;
        saveToAPI (props mergedSnippets)
      else mret tt
  end.

(** The storage part of [UIManager.clearAllData]. *)
Definition clearAllData : M unit :=
  st ← get;
  put (set_localStorage None st);;
  o ← new_object ∅;
  st ← get;
  put (set_cache (Some o) st).

(** ** Scripts: method calls in sequence *)

Inductive Action :=
| ASave (snippetId : string) (data : SaveData)
| ADelete (snippetId : string)
| ARestore (snippetId : string) (versionNumber : Z)
| AImport (importData : Blob)
| AGetAll
| ASettle (ok : bool).      (* the background PUT of an earlier save settles *)

Definition forget {A} (m : M A) : M unit := m ≫= (fun _ => mret tt).

Definition perform (cfg : Config) (a : Action) : M unit :=
  match a with
  | ASave snippetId data => forget (saveSnippet cfg snippetId data)
  | ADelete snippetId => deleteSnippet snippetId
  | ARestore snippetId k => forget (restoreVersion snippetId k)
  | AImport importData => importSnippets importData true
  | AGetAll => forget getAllSnippets
  | ASettle ok => background_settle ok
  end.

(** A rejected call leaves the script running, as the UI's handlers do. *)
Fixpoint run (cfg : Config) (script : list (Action * Env)) (st : State) : State :=
  match script with
  | [] => st
  | (a, env) :: rest => run cfg rest (post (perform cfg a env st))
  end.

(** The page as first loaded: nothing cached, nothing stored. *)
Definition initial : State := mkState None false None 0.

(** The snippet the cache holds for an id. *)
Definition cached (st : State) (snippetId : string) : option Snippet :=
  c ← cache st; props c !! snippetId.

(** ** Utils.debounce and the auto-save observer *)

(** The closure of [Utils.debounce(func, wait)]: [timeout], the one timer it
    keeps armed, together with the arguments its [later] callback captured. *)
Record Timer (A : Type) := mkTimer {
  due : Z;
  args : A
}.
Arguments mkTimer {A} due args.
Arguments due {A} t.
Arguments args {A} t.

Module Debounce.

(** [executedFunction(...args)] at time [t]:
    [clearTimeout(timeout); timeout = setTimeout(later, wait)]. *)
Definition call {A} (wait t : Z) (a : A) (timeout : option (Timer A)) : option (Timer A) :=
  Some (mkTimer (t + wait) a).

(** The timer queue at time [t]: an armed timer that is due runs [later],
    which calls [func] with the captured arguments. *)
Definition elapse {A} (t : Z) (timeout : option (Timer A)) : option (Timer A) * option (Z * A) :=
  match timeout with
  | Some tm => if due tm <=? t then (None, Some (due tm, args tm)) else (timeout, None)
  | None => (None, None)
  end.

End Debounce.

(** A node of the editor page that a mutation record can name as its
    target: its [data-global-snippet-id] attribute, if it is an element that
    carries one, and its [innerHTML]. *)
Record Element := mkElement {
  snippetAttribute : option string;
  innerHTML : string
}.

(** One [saveSnippet] call issued by the auto-save. *)
Record AutoSave := mkAutoSave {
  firedAt : Z;
  savedId : string;
  savedHtml : string
}.

(** The editor page after [setupAutoSave]: the nodes inside the observed
    elements (these included), the single [debouncedSave] closure, the
    storage manager, and the auto-saves so far. *)
Record Editor := mkEditor {
  document : gmap nat Element;
  debouncedSave : option (Timer (string * nat));
  storage : State;
  autoSaved : list AutoSave
}.

(** The debounced function's body: [element.innerHTML] is read when the
    timer fires. *)
Definition fire (cfg : Config) (env : Env) (t : Z) (ed : Editor) : Editor :=
  match Debounce.elapse t (debouncedSave ed) with
  | (timeout, Some (at_, (snippetId, element))) =>
      let content := default "" (innerHTML <$> document ed !! element) in
      match saveSnippet cfg snippetId (mkSaveData content (Some "auto-save")) env (storage ed) with
      | mkOutcome _ storage' _ =>
          mkEditor (document ed) timeout storage'
                   (autoSaved ed ++ [mkAutoSave at_ snippetId content])
      end
  | (timeout, None) =>
      mkEditor (document ed) timeout (storage ed) (autoSaved ed)
  end.

(** A mutation record at time [t] whose target is [element], which then has
    the given content, and the observer callback it triggers:
    [debouncedSave(snippetId, element)] when the target carries a snippet
    attribute that is not empty. *)
Definition mutate (cfg : Config) (t : Z) (element : nat) (content : string) (ed : Editor) : Editor :=
  match document ed !! element with
  | Some el =>
      let document' := <[element := mkElement (snippetAttribute el) content]> (document ed) in
      match snippetAttribute el with
      | Some snippetId =>
          if decide (snippetId = "")
          then mkEditor document' (debouncedSave ed) (storage ed) (autoSaved ed)
          else
            mkEditor document'
                     (Debounce.call (autoSaveDelay cfg) t (snippetId, element) (debouncedSave ed))
                     (storage ed) (autoSaved ed)
      | None => mkEditor document' (debouncedSave ed) (storage ed) (autoSaved ed)
      end
  | None => ed
  end.

(** A timeline of mutation records [(t, target, content)], times ascending;
    timers that came due run before the next record is handled. *)
Fixpoint play (cfg : Config) (env : Env) (edits : list (Z * nat * string)) (ed : Editor) : Editor :=
  match edits with
  | [] => ed
  | (t, element, content) :: rest =>
      play cfg env rest (mutate cfg t element content (fire cfg env t ed))
  end.

(** The page left alone until time [t] after the edits. *)
Definition play_until (cfg : Config) (env : Env) (edits : list (Z * nat * string)) (t : Z) (ed : Editor) : Editor :=
  fire cfg env t (play cfg env edits ed).

(** ** Sample values for the concrete scenarios *)

(** A browser in which everything works: no remote data yet, localStorage
    accepts writes, PUTs succeed. *)
Definition env_ok : Env := mkEnv "2024-01-01T00:00:00.000Z" None true true.

(** The remote API rejects the PUT. *)
Definition env_put_fails : Env := mkEnv "2024-01-01T00:00:00.000Z" None true false.

(** localStorage is full: [setItem] throws. *)
Definition env_quota : Env := mkEnv "2024-01-01T00:00:00.000Z" None false true.

(** [CONFIG] as shipped, and with the version limit set to 2. *)
Definition CONFIG : Config := mkConfig 10 2000.
Definition CONFIG2 : Config := mkConfig 2 2000.

Definition edit (content : string) : SaveData := mkSaveData content (Some "current-user").

(** ** The effects of the persistence helpers, spelled out *)

(** The events of [saveToLocalStorage]. *)
Definition local_write (env : Env) (data : gmap string Snippet) : list Event :=
  EvLocalSet data (setItemOk env) ::
  (if setItemOk env then [] else [EvError "Failed to save to localStorage"]).

(** The item in localStorage after [saveToLocalStorage]. *)
Definition local_after (env : Env) (data : gmap string Snippet) (st : State) : option Blob :=
  if setItemOk env then Some (Json data) else localStorage st.

(** The events of an awaited [saveToAPI]. *)
Definition awaited_push (env : Env) (data : gmap string Snippet) (st : State) : list Event :=
  if syncInProgress st then []
  else EvPut data :: EvPutDone (putOk env) ::
       (if putOk env then [] else [EvError "Failed to save to API"]).

(** The result of an awaited [saveToAPI]. *)
Definition awaited_result (env : Env) (st : State) : result unit :=
  if syncInProgress st || putOk env then Ok tt else Err "API save failed".

(** ** Ledger notions used by the statements *)

(** The snippet a save starts from: the cached one, or a fresh empty one. *)
Definition snippet_before (snippetId : string) (env : Env) (st : State) : Snippet :=
  default (empty_snippet snippetId) (cached (post (getAllSnippets env st)) snippetId).

(** Every version sits at the array position its number names. This holds
    for a snippet built by saves as long as nothing has been trimmed. *)
Definition numbered_by_position (snippet : Snippet) : Prop :=
  forall (i : nat) v, versions snippet !! i = Some v -> version v = Z.of_nat i.

(** The contents of the versions the cache holds for an id. *)
Definition cached_contents (st : State) (snippetId : string) : list string :=
  html <$> versions (default (empty_snippet snippetId) (cached st snippetId)).

(** A script made only of saves of [snippetId], with the pushes they start
    settling at any point in between. *)
Definition saves_only (snippetId : string) (script : list (Action * Env)) : bool :=
  forallb (fun step =>
             match fst step with
             | ASave i _ => bool_decide (i = snippetId)
             | ASettle _ => true
             | _ => false
             end) script.

(** The contents a script saves, in order. *)
Definition saved_contents (script : list (Action * Env)) : list string :=
  flat_map (fun step =>
              match fst step with
              | ASave _ data => [data_html data]
              | _ => []
              end) script.

(** ** Concrete states *)

(** A cached collection holding snippet "a" with one version, no push in
    flight: one save whose PUT has settled. *)
Definition one_saved : State :=
  run CONFIG [(ASave "a" (edit "<p>x</p>"), env_ok); (ASettle true, env_ok)] initial.

(** Two saves of snippet "a", each push settled. *)
Definition two_saved : State :=
  run CONFIG [(ASave "a" (edit "<p>one</p>"), env_ok); (ASettle true, env_ok);
              (ASave "a" (edit "<p>two</p>"), env_ok); (ASettle true, env_ok)] initial.

(** Three saves of a fresh snippet under a version limit of 2. *)
Definition three_saved : State :=
  run CONFIG2 [(ASave "a" (edit "A"), env_ok); (ASave "a" (edit "B"), env_ok);
               (ASave "a" (edit "C"), env_ok)] initial.

(** Two watched regions, nothing saved yet. *)
Definition two_regions : Editor :=
  mkEditor (<[1%nat := mkElement (Some "region-a") "<p>a0</p>"]>
            (<[2%nat := mkElement (Some "region-b") "<p>b0</p>"]> ∅))
           None initial [].

(** ** Properties the statements below refute at a concrete input *)

(** The reading of C7 as stated: after [deleteSnippet] the key is gone from
    the cached collection, and the call's actions end with the localStorage
    write of that collection followed by a PUT of it that has settled. *)
Definition delete_is_remote_synchronous (snippetId : string) (env : Env) (st : State) : Prop :=
  let o := deleteSnippet snippetId env st in
  exists c before ok after,
    cache (post o) = Some c /\
    props c !! snippetId = None /\
    trace o = before ++ EvLocalSet (props c) ok :: after /\
    exists between rest, after = between ++ EvPut (props c) :: EvPutDone (putOk env) :: rest.

(** The reading of C9 as stated: the call returns the new version, the
    cached snippet ends with it, localStorage holds the cached collection,
    and the later settling of the push, whatever its outcome, reports
    nothing and changes neither. *)
Definition save_is_locally_durable
    (cfg : Config) (snippetId : string) (data : SaveData) (env : Env) (st : State) : Prop :=
  let o := saveSnippet cfg snippetId data env st in
  exists v c snippet,
    res o = Ok v /\
    cache (post o) = Some c /\
    props c !! snippetId = Some snippet /\
    last (versions snippet) = Some v /\
    localStorage (post o) = Some (Json (props c)) /\
    forall ok env',
      let settled := background_settle ok env' (post o) in
      res settled = Ok tt /\
      cache (post settled) = cache (post o) /\
      localStorage (post settled) = localStorage (post o).

(** The reading of C6 as stated: a call that ends in an error leaves the
    cached entry of the snippet it acted on as it was. *)
Definition failure_leaves_snippet {A} (m : M A) (snippetId : string) (env : Env) (st : State) : Prop :=
  forall e, res (m env st) = Err e ->
            cached (post (m env st)) snippetId = cached st snippetId.

(** The reading of C3 as stated: the number given to the new version is
    above the number of every version already in the ledger. *)
Definition strictly_newer (before : Snippet) (v : Version) : Prop :=
  forall w, w ∈ versions before -> version w < version v.

(** The error of the guard of [restoreVersion]. *)
Definition guard_error (c : gmap string Snippet) (snippetId : string) : string :=
  match JS.member c snippetId with
  | JS.Inherited => JS.TypeError
  | _ => "Version not found"
  end.

(** ** Utils.sanitizeSnippetId *)

Module Utils.

(** [toLowerCase] on one code unit of an ASCII string. *)
Definition toLowerCase_unit (c : Ascii.ascii) : Ascii.ascii :=
  let n := Ascii.nat_of_ascii c in
  if ((65 <=? n) && (n <=? 90))%nat then Ascii.ascii_of_nat (n + 32) else c.

(** The character class [a-z0-9-_] of the replace pattern. *)
Definition id_unit (c : Ascii.ascii) : bool :=
  let n := Ascii.nat_of_ascii c in
  (((97 <=? n) && (n <=? 122)) || ((48 <=? n) && (n <=? 57))
   || (n =? 45) || (n =? 95))%nat.

(** The replacement character, '-'. *)
Definition hyphen : Ascii.ascii := Ascii.ascii_of_nat 45.

(** A unit-by-unit rewrite of a string. *)
Fixpoint map_units (f : Ascii.ascii -> Ascii.ascii) (s : string) : string :=
  match s with
  | EmptyString => EmptyString
  | String c rest => String (f c) (map_units f rest)
  end.

(** [id.toLowerCase().replace(/[^a-z0-9-_]/g, '-')] *)
Definition sanitizeSnippetId (id : string) : string :=
  map_units (fun c => if id_unit c then c else hyphen)
            (map_units toLowerCase_unit id).

(** The strings on which the two steps above act unit by unit: every code
    unit below 128. *)
Fixpoint ascii_only (s : string) : bool :=
  match s with
  | EmptyString => true
  | String c rest => (Ascii.nat_of_ascii c <? 128)%nat && ascii_only rest
  end.

(** Every unit of the string is in the class [a-z0-9-_]. *)
Fixpoint id_units (s : string) : bool :=
  match s with
  | EmptyString => true
  | String c rest => id_unit c && id_units rest
  end.

End Utils.


(** What [parseAPIResponse] makes of the items, without the log. *)
Fixpoint item_entries (items : list Item) (snippets : gmap string Snippet) : gmap string Snippet :=
  match items with
  | [] => snippets
  | item :: rest =>
      match customContent item with
      | SnippetContent parsed => item_entries rest (<[item_id item := parsed]> snippets)
      | _ => item_entries rest snippets
      end
  end.

(** The collection [parseAPIResponse] returns for an answer. *)
Definition parsed (data : ApiData) : gmap string Snippet :=
  match data with
  | ItemsData items => item_entries items ∅
  | PlainData c => c
  | NullData => ∅
  end.

(** What [fetchFromAPI] resolves to: [None] for [null]. *)
Definition apiData (env : Env) : option (gmap string Snippet) :=
  parsed <$> apiResponse env.

(** ** SnippetManager.renderSnippet *)

(** The browser's part of [renderSnippet]: [querySelectorAll] with the id
    spliced into the selector, and for every element found the assignments
    to [innerHTML] and to the version attribute. It gives the page after
    them, or the error [querySelectorAll] throws. *)
Definition PageUpdate (Page : Type) : Type := string -> Version -> Page -> result Page.

(** [renderSnippet], over a page of any kind and its update. *)
Definition renderSnippet {Page : Type} (update : PageUpdate Page)
    (snippetId : string) (page : Page) : M Page :=
  snippets ← getAllSnippets;
  match JS.member (props snippets) snippetId with
  | JS.Missing => emit (EvError "Snippet not found");; mret page
  | JS.Inherited => throw JS.TypeError
  | JS.Own snippetData =>
      match JS.index (versions snippetData) (currentVersion snippetData) with
      | None => emit (EvError "No version data for snippet");; mret page
      | Some currentVersion =>
          match update snippetId currentVersion page with
          | Ok page => mret page
          | Err e => throw e
          end
      end
  end.

(** An element of a page: its [data-global-snippet-id] and
    [data-global-snippet-version] attributes and its [innerHTML]. *)
Record PageElement := mkPageElement {
  attr_snippet_id : option string;
  attr_snippet_version : option Z;
  inner_html : string
}.

(** The update of a page whose tagged elements do not contain one another,
    for an id without selector syntax: the elements tagged with the id are
    rewritten, the others are left. *)
Definition flat_update : PageUpdate (list PageElement) :=
  fun snippetId currentVersion page =>
    Ok ((fun el =>
           if decide (attr_snippet_id el = Some snippetId)
           then mkPageElement (attr_snippet_id el) (Some (version currentVersion))
                              (html currentVersion)
           else el) <$> page).

(** ** UIManager.syncAllSnippets *)




(** The contents of the elements tagged [snippetId], in page order. *)
Definition contents_tagged (snippetId : string) (elements : list (PageElement * Env)) : list string :=
  omap (fun '(el, _) =>
          if decide (attr_snippet_id el = Some snippetId) then Some (inner_html el) else None)
       elements.

(** ** Traces of scripts and what they are checked against *)

(** The events of a script, in order. *)
Fixpoint run_trace (cfg : Config) (script : list (Action * Env)) (st : State) : list Event :=
  match script with
  | [] => []
  | (a, env) :: rest =>
      match perform cfg a env st with
      | mkOutcome _ st' tr => tr ++ run_trace cfg rest st'
      end
  end.

(** Replays a trace against the single-flight rule: a PUT may only be
    issued when none is in flight, and only a PUT in flight can settle.
    [None] is a violation, [Some busy] the flag at the end. *)
Fixpoint in_flight_after (busy : bool) (tr : list Event) : option bool :=
  match tr with
  | [] => Some busy
  | EvPut _ :: rest => if busy then None else in_flight_after true rest
  | EvPutDone _ :: rest => if busy then in_flight_after false rest else None
  | _ :: rest => in_flight_after busy rest
  end.

(** The number of GET requests in a trace. *)
Fixpoint fetches (tr : list Event) : nat :=
  match tr with
  | [] => 0
  | EvFetch :: rest => S (fetches rest)
  | _ :: rest => fetches rest
  end.

(** What [loadFromLocalStorage] would read. *)
Definition stored (st : State) : gmap string Snippet :=
  match localStorage st with
  | Some (Json c) => c
  | _ => ∅
  end.

(** The stored item parses to the cached collection. *)
Definition mirrored (st : State) : Prop :=
  forall c, cache st = Some c -> props c = stored st.

(** Every call of the script finds localStorage writable. *)
Definition writable (script : list (Action * Env)) : bool :=
  forallb (fun step => setItemOk (snd step)) script.

(** The page loaded again: the manager is constructed anew, localStorage is
    what the previous page left. *)
Definition reload (st : State) : State :=
  mkState None false (localStorage st) (nextOid st).

(** ** Bursts of edits *)




(** The errors [parseAPIResponse] logs: one per item whose content does not
    parse. *)
Definition parse_errors (items : list Item) : list Event :=
  flat_map (fun item => match customContent item with
                        | BadContent => [EvError "Failed to parse snippet data"]
                        | _ => []
                        end) items.

(** The errors [parseAPIResponse] logs for an answer. *)
Definition response_errors (data : ApiData) : list Event :=
  match data with
  | ItemsData items => parse_errors items
  | _ => []
  end.

(** * Properties *)

(** ** The method monad *)

Ltac run_M :=
  unfold saveToAPI, saveToAPI_begin, saveToAPI_settle, saveToLocalStorage,
         loadFromLocalStorage, fetchFromAPI, new_object, catch, throw, ask,
         get, put, emit, forget, mbind, mret, M_bind, M_ret in *;
  cbn [set_cache set_syncInProgress set_localStorage app
       cache syncInProgress localStorage nextOid] in *.

(** ** Lookups in a collection *)

Lemma member_own {A} (own : gmap string A) key a :
  own !! key = Some a -> JS.member own key = JS.Own a.
Proof. intros H. unfold JS.member. rewrite H. reflexivity. Qed.

Lemma member_inherited {A} (own : gmap string A) key :
  JS.member own key = JS.Inherited <-> own !! key = None /\ JS.inherited key = true.
Proof.
  unfold JS.member. destruct (own !! key); [split; [discriminate|intros [? _]; discriminate]|].
  destruct (JS.inherited key); split; try discriminate; auto.
  intros [_ ?]; discriminate.
Qed.

Lemma member_not_inherited {A} (own : gmap string A) key :
  JS.inherited key = false -> JS.member own key <> JS.Inherited.
Proof. intros Hn [_ Hi]%member_inherited. congruence. Qed.

Lemma member_missing {A} (own : gmap string A) key :
  JS.member own key = JS.Missing <-> own !! key = None /\ JS.inherited key = false.
Proof.
  unfold JS.member. destruct (own !! key); [split; [discriminate|intros [? _]; discriminate]|].
  destruct (JS.inherited key); split; try discriminate; auto.
  intros [_ ?]; discriminate.
Qed.

(** ** The remote answer *)



Lemma parse_items_run items : forall snippets env st,
  parse_items items snippets env st =
  mkOutcome (Ok (item_entries items snippets)) st (parse_errors items).
Proof.
  induction items as [|item rest IH]; intros snippets env st; [reflexivity|].
  cbn [parse_items item_entries parse_errors flat_map].
  destruct (customContent item) as [| |p]; [apply IH| |apply IH].
  run_M. fold parse_errors. rewrite IH. reflexivity.
Qed.

Lemma parseAPIResponse_run data env st :
  parseAPIResponse data env st = mkOutcome (Ok (parsed data)) st (response_errors data).
Proof. destruct data as [|items|c]; try reflexivity. apply parse_items_run. Qed.

(** ** What each method does, given the collection [getAllSnippets] hands it *)

Lemma getAllSnippets_hit env st c :
  cache st = Some c -> getAllSnippets env st = mkOutcome (Ok c) st [].
Proof.
  intros Hc. unfold getAllSnippets. run_M. rewrite Hc. reflexivity.
Qed.

Lemma getAllSnippets_ok env st :
  exists c st1 tr1,
    getAllSnippets env st = mkOutcome (Ok c) st1 tr1 /\
    cache st1 = Some c /\
    syncInProgress st1 = syncInProgress st.
Proof.
  unfold getAllSnippets. run_M.
  destruct (cache st) as [c|] eqn:Hc.
  - exists c, st, []. auto.
  - destruct (apiResponse env) as [data|].
    + rewrite parseAPIResponse_run.
      destruct (setItemOk env); cbn; eexists _, _, _; eauto.
    + destruct (localStorage st) as [[|c]|]; cbn; eexists _, _, _; eauto.
Qed.

Lemma getAllSnippets_post_hit env st c :
  cache st = Some c -> post (getAllSnippets env st) = st.
Proof. intros Hc. rewrite (getAllSnippets_hit _ _ _ Hc). reflexivity. Qed.

(** Name the collection, state and trace [getAllSnippets] produces. *)
Ltac with_collection env st c st1 tr1 Hg Hcache Hsync :=
  destruct (getAllSnippets_ok env st) as (c & st1 & tr1 & Hg & Hcache & Hsync).

(** A save of an id that is an own key of the collection, or that the
    collection does not answer for at all. *)
Lemma saveSnippet_spec cfg snippetId data env st :
  let g := getAllSnippets env st in
  exists c,
    res g = Ok c /\
    (JS.member (props c) snippetId <> JS.Inherited ->
     let snippet := default (empty_snippet snippetId) (props c !! snippetId) in
     let v := new_version snippet data (now env) in
     let c' := <[snippetId := append_version cfg snippet v]> (props c) in
     let o := saveSnippet cfg snippetId data env st in
     res o = Ok v /\
     cache (post o) = Some (mkSnippets (oid c) c') /\
     localStorage (post o) = local_after env c' (post g) /\
     syncInProgress (post o) = true /\
     trace o = trace g ++ local_write env c' ++
               (if syncInProgress st then [] else [EvPut c'])).
Proof.
  intros g. with_collection env st c st1 tr1 Hg Hcache Hsync.
  exists c. subst g. rewrite Hg. split; [reflexivity|]. intros Hmember snippet v c' o.
  subst o. unfold saveSnippet. run_M. rewrite Hg.
  fold snippet. fold v. fold c'.
  unfold local_after, local_write.
  destruct (JS.member (props c) snippetId); [|contradiction|].
  all: destruct (setItemOk env); cbn; rewrite ?Hsync;
    destruct (syncInProgress st); cbn; rewrite ?app_nil_r; repeat split; auto.
Qed.

(** A save of a name the collection only inherits: the call is rejected
    after the read, and nothing is written. *)
Lemma saveSnippet_rejected cfg snippetId data env st :
  let g := getAllSnippets env st in
  let o := saveSnippet cfg snippetId data env st in
  exists c,
    res g = Ok c /\
    (JS.member (props c) snippetId = JS.Inherited ->
     res o = Err JS.TypeError /\ post o = post g /\ trace o = trace g).
Proof.
  intros g o. with_collection env st c st1 tr1 Hg Hcache Hsync.
  exists c. subst g. rewrite Hg. split; [reflexivity|]. intros Hmember.
  subst o. unfold saveSnippet. run_M. rewrite Hg, Hmember. cbn.
  rewrite app_nil_r. auto.
Qed.

(** Case analysis on the write to localStorage and on the awaited push. *)
Ltac push_cases env st Hsync :=
  unfold local_after, local_write, awaited_push, awaited_result;
  destruct (setItemOk env); cbn; rewrite ?Hsync;
  destruct (syncInProgress st); cbn; rewrite ?app_nil_r;
  try (repeat split; auto; fail);
  destruct (putOk env); cbn; rewrite ?app_nil_r; repeat split; auto.

Lemma deleteSnippet_spec snippetId env st :
  let g := getAllSnippets env st in
  exists c,
    res g = Ok c /\
    let c' := delete snippetId (props c) in
    let o := deleteSnippet snippetId env st in
    res o = awaited_result env st /\
    cache (post o) = Some (mkSnippets (oid c) c') /\
    localStorage (post o) = local_after env c' (post g) /\
    syncInProgress (post o) = syncInProgress st /\
    trace o = trace g ++ local_write env c' ++ awaited_push env c' st.
Proof.
  intros g. with_collection env st c st1 tr1 Hg Hcache Hsync.
  exists c. subst g. rewrite Hg. split; [reflexivity|]. intros c' o.
  subst o. unfold deleteSnippet. run_M. rewrite Hg. fold c'.
  push_cases env st Hsync.
Qed.

(** The two ways [restoreVersion] can go: the guard throws before anything
    is written, or the pointer is moved and the collection committed. *)
Lemma restoreVersion_spec snippetId versionNumber env st :
  let g := getAllSnippets env st in
  let o := restoreVersion snippetId versionNumber env st in
  exists c,
    res g = Ok c /\
    match props c !! snippetId ≫= (fun snippet =>
            JS.index (versions snippet) versionNumber ≫= (fun v => Some (snippet, v))) with
    | None =>
        res o = Err (guard_error (props c) snippetId) /\ post o = post g /\ trace o = trace g
    | Some (snippet, v) =>
        let c' := <[snippetId := mkSnippet (id snippet) (versions snippet) versionNumber]> (props c) in
        res o = match awaited_result env st with Ok _ => Ok v | Err e => Err e end /\
        cache (post o) = Some (mkSnippets (oid c) c') /\
        localStorage (post o) = local_after env c' (post g) /\
        syncInProgress (post o) = syncInProgress st /\
        trace o = trace g ++ local_write env c' ++ awaited_push env c' st
    end.
Proof.
  intros g o. with_collection env st c st1 tr1 Hg Hcache Hsync.
  exists c. subst g. rewrite Hg. split; [reflexivity|].
  subst o. unfold restoreVersion, guard_error. run_M. rewrite Hg.
  destruct (props c !! snippetId) as [snippet|] eqn:Hlook.
  2: { unfold JS.member. rewrite Hlook.
       destruct (JS.inherited snippetId); cbn; rewrite ?app_nil_r; auto. }
  rewrite (member_own _ _ _ Hlook). cbn.
  destruct (JS.index (versions snippet) versionNumber) as [v|]; cbn;
    [|rewrite app_nil_r; auto].
  push_cases env st Hsync.
Qed.

Lemma importSnippets_spec incoming env st :
  let g := getAllSnippets env st in
  exists c,
    res g = Ok c /\
    let c' := incoming ∪ props c in
    let o := importSnippets (Json incoming) true env st in
    res o = awaited_result env st /\
    cache (post o) = Some (mkSnippets (nextOid (post g)) c') /\
    localStorage (post o) = local_after env c' (post g) /\
    syncInProgress (post o) = syncInProgress st /\
    trace o = trace g ++ local_write env c' ++ awaited_push env c' st.
Proof.
  intros g. with_collection env st c st1 tr1 Hg Hcache Hsync.
  exists c. subst g. rewrite Hg. split; [reflexivity|]. intros c' o.
  subst o. unfold importSnippets. run_M. rewrite Hg. fold c'.
  push_cases env st Hsync.
Qed.

(** The background settle never reports to a caller and touches only the
    single-flight flag. *)
Lemma background_settle_spec ok env st :
  let o := background_settle ok env st in
  res o = Ok tt /\
  cache (post o) = cache st /\
  localStorage (post o) = localStorage st /\
  syncInProgress (post o) = false.
Proof.
  unfold background_settle. run_M.
  destruct (syncInProgress st) eqn:Hs; cbn; [|auto].
  destruct ok; cbn; auto.
Qed.

(** ** The read-through cache *)

(** Whatever the state, a second [getAllSnippets] right after a first one is
    a cache hit: same object, no I/O, no state change. *)
Lemma getAllSnippets_twice env1 env2 st :
  let first := getAllSnippets env1 st in
  let second := getAllSnippets env2 (post first) in
  exists c, res first = Ok c /\ res second = Ok c /\
            trace second = [] /\ post second = post first.
Proof.
  intros first second.
  with_collection env1 st c st1 tr1 Hg Hcache Hsync.
  exists c. subst second first. rewrite Hg. cbn.
  rewrite (getAllSnippets_hit env2 _ _ Hcache). auto.
Qed.

(** C8. With a collection in the cache, two [getAllSnippets] calls in a row
    return the very same object (equal identity and equal content), neither
    call issues a remote fetch or reads or writes localStorage, and the state
    is left as it was. *)
Theorem getAllSnippets_idempotent env1 env2 st c :
  cache st = Some c ->
  let first := getAllSnippets env1 st in
  let second := getAllSnippets env2 (post first) in
  res first = Ok c /\ res second = Ok c /\
  trace first = [] /\ trace second = [] /\
  post first = st /\ post second = st.
Proof.
  intros Hc first second. subst second first.
  rewrite (getAllSnippets_hit env1 _ _ Hc). cbn.
  rewrite (getAllSnippets_hit env2 _ _ Hc). cbn. repeat split; reflexivity.
Qed.

(** The cache after [clearAllData] is the empty object, which counts as
    populated: the next two reads are hits. *)
Lemma getAllSnippets_idempotent_witness :
  let st := post (clearAllData env_ok initial) in
  cache st = Some (mkSnippets 0 ∅) /\
  res (getAllSnippets env_ok st) = Ok (mkSnippets 0 ∅) /\
  res (getAllSnippets env_put_fails (post (getAllSnippets env_ok st))) = Ok (mkSnippets 0 ∅) /\
  trace (getAllSnippets env_put_fails (post (getAllSnippets env_ok st))) = [].
Proof.
  cbv zeta.
  pose proof (getAllSnippets_idempotent env_ok env_put_fails
                (post (clearAllData env_ok initial)) (mkSnippets 0 ∅) eq_refl) as H.
  cbv zeta in H. destruct H as (H1 & H2 & _ & H4 & _).
  split; [reflexivity|]. split; [exact H1|]. split; [exact H2|exact H4].
Defined.

(** ** Deleting *)

(** C10. [deleteSnippet] on an id the collection does not hold never
    raises the not-found error: the collection in the cache is the one
    [getAllSnippets] returned, unchanged, and the only error the call can end
    with is the failure of the awaited remote push. *)
Theorem deleteSnippet_absent_is_noop snippetId env st c :
  res (getAllSnippets env st) = Ok c ->
  props c !! snippetId = None ->
  let o := deleteSnippet snippetId env st in
  cache (post o) = Some c /\
  res o <> Err "Version not found" /\
  (res o = Ok tt \/
   (res o = Err "API save failed" /\ syncInProgress st = false /\ putOk env = false)).
Proof.
  intros Hg Habsent o.
  destruct (deleteSnippet_spec snippetId env st) as (c0 & Hg0 & Hres & Hcache & _).
  rewrite Hg in Hg0. injection Hg0 as <-. fold o in Hres, Hcache.
  rewrite Hcache, Hres. rewrite (delete_id _ _ Habsent). destruct c as [n m]; cbn.
  unfold awaited_result.
  destruct (syncInProgress st), (putOk env); cbn; repeat split; auto; discriminate.
Qed.

(** Deleting an id the one-snippet collection does not hold, with the PUT
    rejected: the cached object is the one handed out before. *)
Lemma deleteSnippet_absent_is_noop_witness :
  let st := run CONFIG [(ASave "kept" (edit "<p>x</p>"), env_ok)] initial in
  exists c,
    res (getAllSnippets env_put_fails st) = Ok c /\
    props c !! "gone" = None /\
    cache (post (deleteSnippet "gone" env_put_fails st)) = Some c.
Proof.
  cbv zeta. eexists. split; [vm_compute; reflexivity|].
  split; [vm_compute; reflexivity|].
  eapply deleteSnippet_absent_is_noop; vm_compute; reflexivity.
Defined.

(** C7, as stated, fails when a push is already in flight: right after a
    [saveSnippet] (whose PUT has not settled) the delete writes localStorage
    and returns without any PUT. *)
Lemma delete_skips_push_in_flight :
  let st := run CONFIG [(ASave "a" (edit "<p>x</p>"), env_ok)] initial in
  syncInProgress st = true /\
  trace (deleteSnippet "a" env_ok st) = [EvLocalSet ∅ true] /\
  ~ delete_is_remote_synchronous "a" env_ok st.
Proof.
  cbv zeta. split; [reflexivity|]. split; [vm_compute; reflexivity|].
  intros (c & before & ok & after & _ & _ & Htrace & between & rest & ->).
  apply (f_equal List.length) in Htrace.
  vm_compute (trace _) in Htrace.
  rewrite !length_app in Htrace. cbn in Htrace. rewrite !length_app in Htrace.
  cbn in Htrace. lia.
Qed.

(** C7, amended. [deleteSnippet] removes the key from the cached object,
    then writes the updated collection to localStorage, then calls
    [saveToAPI]: unless a push is already in flight it issues a PUT of the
    updated collection and returns only once that PUT has settled, failing
    when the PUT failed; when a push is in flight the PUT is skipped and the
    call returns at once. *)
Theorem deleteSnippet_commit_then_push snippetId env st :
  let g := getAllSnippets env st in
  let o := deleteSnippet snippetId env st in
  exists c,
    res g = Ok c /\
    let c' := delete snippetId (props c) in
    cache (post o) = Some (mkSnippets (oid c) c') /\
    cached (post o) snippetId = None /\
    localStorage (post o) =
      (if setItemOk env then Some (Json c') else localStorage (post g)) /\
    trace o =
      trace g ++
      EvLocalSet c' (setItemOk env) ::
      (if setItemOk env then [] else [EvError "Failed to save to localStorage"]) ++
      (if syncInProgress st then []
       else EvPut c' :: EvPutDone (putOk env) ::
            (if putOk env then [] else [EvError "Failed to save to API"])) /\
    res o = (if syncInProgress st || putOk env then Ok tt else Err "API save failed").
Proof.
  intros g o.
  destruct (deleteSnippet_spec snippetId env st) as (c & Hg & Hres & Hcache & Hlocal & _ & Htrace).
  exists c. split; [exact Hg|]. intros c'. fold o in Hres, Hcache, Hlocal, Htrace.
  repeat split; auto.
  unfold cached. rewrite Hcache. cbn. apply lookup_delete_eq.
Qed.

(** ** Saving *)

(** With a non-negative limit the trimming keeps the entry just pushed. *)
Lemma append_version_last cfg snippet v :
  0 <= maxVersionHistory cfg ->
  last (versions (append_version cfg snippet v)) = Some v.
Proof.
  intros Hmax. unfold append_version, JS.push, JS.slice, JS.length. cbn.
  destruct (Z.of_nat (length (versions snippet ++ [v])) >? maxVersionHistory cfg) eqn:Hgt;
    [|apply last_snoc].
  rewrite length_app in *. cbn [length] in *.
  destruct (- maxVersionHistory cfg <? 0) eqn:Hneg.
  - apply Z.gtb_lt in Hgt. apply Z.ltb_lt in Hneg.
    rewrite Z.max_l by lia.
    rewrite drop_app_le by lia.
    apply last_snoc.
  - apply Z.ltb_ge in Hneg. rewrite Z.min_l by lia.
    replace (Z.to_nat (- maxVersionHistory cfg)) with 0%nat by lia.
    rewrite drop_0. apply last_snoc.
Qed.

(** C9, as stated, fails when localStorage rejects the write: the error is
    swallowed by [saveToLocalStorage], the call still returns the version,
    and the local store holds nothing. *)
Lemma save_not_durable_when_setItem_throws :
  let o := saveSnippet CONFIG "a" (edit "<p>x</p>") env_quota initial in
  localStorage (post o) = None /\
  ~ save_is_locally_durable CONFIG "a" (edit "<p>x</p>") env_quota initial.
Proof.
  cbv zeta. split; [reflexivity|].
  intros (v & c & snippet & _ & _ & _ & _ & Hlocal & _).
  vm_compute (localStorage _) in Hlocal. discriminate.
Qed.

(** C9, amended. With a valid version limit (at least 1) and for an id that
    is not the name of a member collections inherit, [saveSnippet] returns
    the version it created whatever becomes of the remote push; the cached
    snippet ends with that version;
    localStorage holds the cached collection whenever [setItem] accepted the
    write (a throwing [setItem] is logged and swallowed, leaving the item as
    it was); and the settling of the push, success or failure, reports
    nothing to a caller and changes neither the cache nor localStorage. *)
Theorem saveSnippet_commits_before_push cfg snippetId data env st :
  1 <= maxVersionHistory cfg ->
  JS.inherited snippetId = false ->
  let o := saveSnippet cfg snippetId data env st in
  exists v c snippet,
    res o = Ok v /\
    html v = data_html data /\
    cache (post o) = Some c /\
    props c !! snippetId = Some snippet /\
    last (versions snippet) = Some v /\
    localStorage (post o) =
      (if setItemOk env then Some (Json (props c))
       else localStorage (post (getAllSnippets env st))) /\
    forall ok env',
      let settled := background_settle ok env' (post o) in
      res settled = Ok tt /\
      cache (post settled) = cache (post o) /\
      localStorage (post settled) = localStorage (post o).
Proof.
  intros Hmax Hid o.
  destruct (saveSnippet_spec cfg snippetId data env st) as (c & Hg & Hsave).
  destruct (Hsave (member_not_inherited _ _ Hid)) as (Hres & Hcache & Hlocal & _ & _).
  fold o in Hres, Hcache, Hlocal.
  eexists _, _, _. split; [exact Hres|]. split; [reflexivity|].
  split; [exact Hcache|]. cbn [props]. split; [apply lookup_insert_eq|].
  split; [apply append_version_last; lia|].
  split; [exact Hlocal|].
  intros ok env'. cbv zeta.
  destruct (background_settle_spec ok env' (post o)) as (H1 & H2 & H3 & _).
  auto.
Qed.

(** The first save on a fresh page, with the PUT rejected afterwards: the
    version is returned and stays cached. *)
Lemma saveSnippet_commits_before_push_witness :
  1 <= maxVersionHistory CONFIG /\
  JS.inherited "a" = false /\
  exists v,
    res (saveSnippet CONFIG "a" (edit "<p>x</p>") env_put_fails initial) = Ok v /\
    cached (post (background_settle false env_put_fails
                    (post (saveSnippet CONFIG "a" (edit "<p>x</p>") env_put_fails initial))))
           "a" = Some (mkSnippet "a" [v] 0).
Proof.
  split; [cbn; lia|]. split; [reflexivity|].
  destruct (saveSnippet_commits_before_push CONFIG "a" (edit "<p>x</p>") env_put_fails initial)
    as (v & c & snippet & Hres & _); [cbn; lia|reflexivity|].
  exists v. split; [exact Hres|].
  vm_compute in Hres. injection Hres as <-. vm_compute. reflexivity.
Defined.

(** ** Failures *)

(** C6, as stated, fails for a delete whose awaited PUT is rejected: the
    call ends in the error and the snippet is already gone from the cache. *)
Lemma delete_failure_keeps_deletion :
  res (deleteSnippet "a" env_put_fails one_saved) = Err "API save failed" /\
  cached one_saved "a" <> None /\
  cached (post (deleteSnippet "a" env_put_fails one_saved)) "a" = None /\
  ~ failure_leaves_snippet (deleteSnippet "a") "a" env_put_fails one_saved.
Proof.
  split; [vm_compute; reflexivity|].
  split; [vm_compute; discriminate|].
  split; [vm_compute; reflexivity|].
  intros H. specialize (H "API save failed" ltac:(vm_compute; reflexivity)).
  vm_compute in H. discriminate.
Qed.

(** C6, amended. A call that fails at its guard wrote nothing: after
    [restoreVersion] ends with "Version not found" the state is the one
    [getAllSnippets] left (the given state itself when the cache was
    populated), and an import of text that does not parse leaves the state
    untouched. A call that fails because the awaited PUT failed is not rolled
    back: the deleted key stays deleted, the restored pointer stays moved,
    the imported snippets stay merged into the cache. *)
Theorem failure_effect_on_cache snippetId versionNumber incoming env st :
  let g := getAllSnippets env st in
  let restored := restoreVersion snippetId versionNumber env st in
  let deleted := deleteSnippet snippetId env st in
  let imported := importSnippets (Json incoming) true env st in
  (res restored = Err "Version not found" ->
     post restored = post g /\ (forall c, cache st = Some c -> post restored = st)) /\
  (res (importSnippets Malformed true env st) = Err "Invalid import data" /\
     post (importSnippets Malformed true env st) = st) /\
  (res deleted = Err "API save failed" ->
     cached (post deleted) snippetId = None) /\
  (res restored = Err "API save failed" ->
     exists snippet,
       cached (post g) snippetId = Some snippet /\
       cached (post restored) snippetId =
         Some (mkSnippet (id snippet) (versions snippet) versionNumber)) /\
  (res imported = Err "API save failed" ->
     forall k snippet, incoming !! k = Some snippet ->
                       cached (post imported) k = Some snippet).
Proof.
  intros g restored deleted imported.
  split; [|split; [|split; [|split]]].
  - intros Herr.
    destruct (restoreVersion_spec snippetId versionNumber env st) as (c & Hg & Hcase).
    fold restored g in Hcase.
    destruct (props c !! snippetId ≫= _) as [[snippet v]|].
    + destruct Hcase as (Hres & _). rewrite Hres in Herr.
      destruct (awaited_result env st) as [[]|e] eqn:Hawait; [discriminate|].
      unfold awaited_result in Hawait.
      destruct (syncInProgress st || putOk env); [discriminate|].
      injection Hawait as <-. discriminate.
    + destruct Hcase as (_ & Hpost & _). split; [exact Hpost|].
      intros c0 Hc0. rewrite Hpost. apply (getAllSnippets_post_hit env st c0 Hc0).
  - split; reflexivity.
  - intros _.
    destruct (deleteSnippet_spec snippetId env st) as (c & _ & _ & Hcache & _).
    fold deleted in Hcache. unfold cached. rewrite Hcache. cbn. apply lookup_delete_eq.
  - intros Herr.
    with_collection env st c' st1 tr1 Hg' Hcache' Hsync'.
    destruct (restoreVersion_spec snippetId versionNumber env st) as (c & Hg & Hcase).
    fold restored g in Hcase, Hg. subst g. rewrite Hg' in Hg, Hcase |- *.
    cbn [res post] in *. injection Hg as <-.
    destruct (props c' !! snippetId) as [snippet|] eqn:Hlook; cbn in Hcase.
    + destruct (JS.index (versions snippet) versionNumber) as [v|]; cbn in Hcase.
      * destruct Hcase as (_ & Hcache & _). exists snippet.
        unfold cached. rewrite Hcache', Hcache. cbn. split; [exact Hlook|].
        apply lookup_insert_eq.
      * destruct Hcase as (Hres & _). rewrite Hres in Herr. unfold guard_error in Herr.
        rewrite (member_own _ _ _ Hlook) in Herr. discriminate.
    + destruct Hcase as (Hres & _). rewrite Hres in Herr. unfold guard_error in Herr.
      destruct (JS.member (props c') snippetId); discriminate.
  - intros _ k snippet Hin.
    destruct (importSnippets_spec incoming env st) as (c & _ & _ & Hcache & _).
    fold imported in Hcache. unfold cached. rewrite Hcache. cbn.
    apply lookup_union_Some_l. exact Hin.
Qed.

(** On the one-snippet state: restoring a version that does not exist
    changes nothing; a delete whose PUT is rejected stays deleted. *)
Lemma failure_effect_on_cache_witness :
  res (restoreVersion "a" 5 env_ok one_saved) = Err "Version not found" /\
  post (restoreVersion "a" 5 env_ok one_saved) = one_saved /\
  res (deleteSnippet "a" env_put_fails one_saved) = Err "API save failed" /\
  cached (post (deleteSnippet "a" env_put_fails one_saved)) "a" = None.
Proof.
  pose proof (failure_effect_on_cache "a" 5 ∅ env_ok one_saved) as Hguard.
  pose proof (failure_effect_on_cache "a" 5 ∅ env_put_fails one_saved) as Hremote.
  cbv zeta in Hguard, Hremote.
  destruct Hguard as (Hrestore & _).
  destruct Hremote as (_ & _ & Hdelete & _).
  assert (Hr : res (restoreVersion "a" 5 env_ok one_saved) = Err "Version not found")
    by (vm_compute; reflexivity).
  assert (Hd : res (deleteSnippet "a" env_put_fails one_saved) = Err "API save failed")
    by (vm_compute; reflexivity).
  split; [exact Hr|].
  split; [destruct (Hrestore Hr) as [Hpost _]; rewrite Hpost; vm_compute; reflexivity|].
  split; [exact Hd|exact (Hdelete Hd)].
Defined.

(** ** The version ledger *)

Lemma slice_suffix {A} (arr : list A) (start : Z) : JS.slice arr start `suffix_of` arr.
Proof. unfold JS.slice. apply suffix_drop. Qed.

(** [arr.slice(-n)] on an array longer than [n >= 1]: the last [n] entries. *)
Lemma slice_last_n {A} (arr : list A) (n : Z) :
  1 <= n -> n < JS.length arr ->
  JS.slice arr (- n) = drop (length arr - Z.to_nat n) arr.
Proof.
  unfold JS.slice, JS.length. intros Hn Hlen.
  replace (- n <? 0) with true by (symmetry; apply Z.ltb_lt; lia).
  rewrite Z.max_l by lia. f_equal. lia.
Qed.

(** The kept versions are always a tail of the pushed array: entries are
    dropped from the front only, and no kept entry is altered. *)
Lemma append_version_suffix cfg snippet v :
  versions (append_version cfg snippet v) `suffix_of` versions snippet ++ [v].
Proof.
  unfold append_version, JS.push. cbn.
  destruct (_ >? _); [apply slice_suffix|reflexivity].
Qed.

(** The number of kept versions, for a limit of at least 1. *)
Lemma append_version_length cfg snippet v :
  1 <= maxVersionHistory cfg ->
  JS.length (versions (append_version cfg snippet v)) =
  Z.min (JS.length (versions snippet) + 1) (maxVersionHistory cfg).
Proof.
  intros Hmax. unfold append_version, JS.push. cbn.
  assert (Hpush : JS.length (versions snippet ++ [v]) = JS.length (versions snippet) + 1)
    by (unfold JS.length; rewrite length_app; cbn; lia).
  destruct (_ >? _) eqn:Hgt.
  - apply Z.gtb_lt in Hgt. rewrite slice_last_n by lia.
    unfold JS.length in *. rewrite length_drop. lia.
  - rewrite Hpush. pose proof (Zgt_cases (JS.length (versions snippet ++ [v]))
                                          (maxVersionHistory cfg)) as Hle.
    rewrite Hgt in Hle. lia.
Qed.

Lemma empty_snippet_numbered snippetId : numbered_by_position (empty_snippet snippetId).
Proof. intros i v Hi. cbn in Hi. rewrite lookup_nil in Hi. discriminate. Qed.

(** A save that does not trim keeps the numbering positional. *)
Lemma append_version_numbered cfg snippet data ts :
  numbered_by_position snippet ->
  JS.length (versions snippet) < maxVersionHistory cfg ->
  numbered_by_position (append_version cfg snippet (new_version snippet data ts)).
Proof.
  intros Hnum Hlen i v. unfold append_version, JS.push. cbn.
  replace (_ >? _) with false.
  - intros Hi. apply lookup_snoc_Some in Hi as [[_ Hi]|[-> <-]]; [eauto|reflexivity].
  - symmetry. rewrite Z.gtb_ltb. apply Z.ltb_ge.
    unfold JS.length in *. rewrite length_app. cbn. lia.
Qed.

(** The new number exceeds every number in a positionally numbered ledger. *)
Lemma new_version_above_numbered snippet data ts w :
  numbered_by_position snippet ->
  w ∈ versions snippet ->
  version w < version (new_version snippet data ts).
Proof.
  intros Hnum Hin. apply list_elem_of_lookup in Hin as [i Hi].
  rewrite (Hnum i w Hi). cbn. unfold JS.length.
  apply lookup_lt_Some in Hi. lia.
Qed.

(** The cached snippet after [saveSnippet], and the version returned, for an
    id that is an own key or not an inherited name. *)
Lemma saveSnippet_cached cfg snippetId data env st :
  JS.inherited snippetId = false \/
  is_Some (cached (post (getAllSnippets env st)) snippetId) ->
  let before := snippet_before snippetId env st in
  let v := new_version before data (now env) in
  let o := saveSnippet cfg snippetId data env st in
  res o = Ok v /\ cached (post o) snippetId = Some (append_version cfg before v).
Proof.
  intros Hid before v o.
  with_collection env st c' st1 tr1 Hg' Hcache' Hsync'.
  destruct (saveSnippet_spec cfg snippetId data env st) as (c & Hg & Hsave).
  rewrite Hg' in Hg. cbn in Hg. injection Hg as <-.
  destruct Hsave as (Hres & Hcache & _).
  { destruct Hid as [Hid|[s Hs]]; [apply member_not_inherited; exact Hid|].
    rewrite Hg' in Hs. unfold cached in Hs. cbn in Hs. rewrite Hcache' in Hs. cbn in Hs.
    rewrite (member_own _ _ _ Hs). discriminate. }
  fold o in Hres, Hcache.
  assert (Hb : before = default (empty_snippet snippetId) (props c' !! snippetId)).
  { subst before. unfold snippet_before, cached. rewrite Hg'. cbn. rewrite Hcache'. reflexivity. }
  subst v. rewrite Hb. split; [exact Hres|].
  unfold cached. rewrite Hcache. cbn. apply lookup_insert_eq.
Qed.

(** A successful or remotely failed [restoreVersion] leaves the versions
    array as it was and stores the requested index as the pointer. *)
Lemma restoreVersion_keeps_versions snippetId versionNumber env st snippet v :
  cached (post (getAllSnippets env st)) snippetId = Some snippet ->
  JS.index (versions snippet) versionNumber = Some v ->
  cached (post (restoreVersion snippetId versionNumber env st)) snippetId =
    Some (mkSnippet (id snippet) (versions snippet) versionNumber).
Proof.
  intros Hlook Hidx.
  with_collection env st c' st1 tr1 Hg' Hcache' Hsync'.
  destruct (restoreVersion_spec snippetId versionNumber env st) as (c & Hg & Hcase).
  rewrite Hg' in Hg, Hlook. cbn in Hg. injection Hg as <-.
  unfold cached in Hlook. cbn in Hlook. rewrite Hcache' in Hlook. cbn in Hlook.
  rewrite Hlook in Hcase. cbn in Hcase. rewrite Hidx in Hcase. cbn in Hcase.
  destruct Hcase as (_ & Hcache & _). unfold cached. rewrite Hcache. cbn.
  apply lookup_insert_eq.
Qed.

(** C1. The code at the failing input: with two versions in the ledger,
    [restoreVersion("a", 0)] returns version 0 and only stores 0 as the
    pointer; the ledger still has its two entries, none appended. *)
Theorem restoreVersion_moves_pointer_only :
  let o := restoreVersion "a" 0 env_ok two_saved in
  exists before after v,
    cached two_saved "a" = Some before /\
    res o = Ok v /\
    cached (post o) "a" = Some after /\
    html <$> versions before = ["<p>one</p>"; "<p>two</p>"] /\
    html v = "<p>one</p>" /\
    versions after = versions before /\
    JS.length (versions after) = 2 /\
    html <$> last (versions after) = Some "<p>two</p>" /\
    currentVersion after = 0.
Proof.
  cbv zeta. eexists _, _, _.
  split; [vm_compute; reflexivity|].
  split; [vm_compute; reflexivity|].
  split; [vm_compute; reflexivity|].
  repeat split.
Qed.

(** A save that trims leaves the pointer at or beyond the end of the kept
    array: it holds the length before the push, and at most
    [maxVersionHistory] entries are kept. *)
Lemma append_version_pointer_after_trim cfg snippet data ts :
  1 <= maxVersionHistory cfg ->
  maxVersionHistory cfg <= JS.length (versions snippet) ->
  let after := append_version cfg snippet (new_version snippet data ts) in
  JS.index (versions after) (currentVersion after) = None.
Proof.
  intros Hmax Hlen after.
  pose proof (append_version_length cfg snippet (new_version snippet data ts) Hmax) as Hl.
  fold after in Hl. unfold JS.index. subst after. cbn [currentVersion append_version new_version version] in *.
  unfold JS.length in *.
  replace (_ <? 0) with false by (symmetry; apply Z.ltb_ge; lia).
  apply lookup_ge_None. lia.
Qed.

(** C2. The code at the failing input: under a limit of 2 the third save
    keeps versions "B" and "C" and leaves [currentVersion] at 2, which is
    not an index into the two kept entries: [versions[currentVersion]] is
    undefined. *)
Theorem saveSnippet_pointer_past_end_after_trim :
  exists snippet,
    cached three_saved "a" = Some snippet /\
    html <$> versions snippet = ["B"; "C"] /\
    JS.length (versions snippet) = 2 /\
    currentVersion snippet = 2 /\
    JS.index (versions snippet) (currentVersion snippet) = None /\
    ~ (0 <= currentVersion snippet < JS.length (versions snippet)).
Proof.
  eexists. split; [vm_compute; reflexivity|].
  repeat split. intros [_ Hlt]. vm_compute in Hlt. discriminate.
Qed.

(** C3. The code at the failing input: under a limit of 2 the ledger after
    three saves holds the versions numbered 1 and 2, and the fourth save
    numbers its version 2 again, the length of the trimmed array: the new
    number is not above the numbers already in the ledger. *)
Theorem version_number_repeats_after_trim :
  let o := saveSnippet CONFIG2 "a" (edit "D") env_ok three_saved in
  exists before v,
    cached three_saved "a" = Some before /\
    version <$> versions before = [1; 2] /\
    res o = Ok v /\
    version v = 2 /\
    ~ strictly_newer before v.
Proof.
  cbv zeta. eexists _, _.
  split; [vm_compute; reflexivity|].
  split; [reflexivity|].
  split; [vm_compute; reflexivity|].
  split; [reflexivity|].
  intros Hnewer.
  match type of Hnewer with
  | strictly_newer (mkSnippet _ [_; ?c] _) _ => specialize (Hnewer c)
  end.
  cbn in Hnewer. apply Z.lt_irrefl in Hnewer; [exact Hnewer|].
  apply list_elem_of_lookup. exists 1%nat. reflexivity.
Qed.

(** ** Runs of saves *)

Lemma run_app cfg script1 script2 st :
  run cfg (script1 ++ script2) st = run cfg script2 (run cfg script1 st).
Proof.
  revert st. induction script1 as [|[a env] rest IH]; intros st; cbn; [reflexivity|].
  apply IH.
Qed.

Lemma suffix_app_drop {A} (l prefix k : list A) :
  l `suffix_of` prefix ++ k ->
  (length l <= length k)%nat ->
  l = drop (length k - length l) k.
Proof.
  intros [front Hfront] Hlen.
  assert (Hl : l = drop (length front) (prefix ++ k))
    by (rewrite Hfront; symmetry; apply drop_app_length).
  assert (Hn : length front = (length prefix + (length k - length l))%nat).
  { apply (f_equal length) in Hfront. rewrite !length_app in Hfront. lia. }
  rewrite Hn, drop_app_add in Hl. exact Hl.
Qed.

Lemma last_drop_lt {A} (l : list A) (n : nat) :
  (n < length l)%nat -> last (drop n l) = last l.
Proof.
  intros Hn. rewrite <- (take_drop n l) at 2. rewrite last_app.
  destruct (last (drop n l)) eqn:Hlast; [reflexivity|].
  apply last_None in Hlast. apply (f_equal length) in Hlast.
  rewrite length_drop in Hlast. cbn in Hlast. lia.
Qed.

Lemma post_forget {A} (m : M A) env st : post (forget m env st) = post (m env st).
Proof.
  unfold forget, mbind, mret, M_bind, M_ret.
  destruct (m env st) as [[a|e] st1 tr1]; reflexivity.
Qed.

(** One save, seen from the cached contents. *)
Lemma saveSnippet_contents cfg snippetId data env st :
  1 <= maxVersionHistory cfg ->
  JS.inherited snippetId = false ->
  let before := html <$> versions (snippet_before snippetId env st) in
  let after := cached_contents (post (saveSnippet cfg snippetId data env st)) snippetId in
  is_Some (cached (post (saveSnippet cfg snippetId data env st)) snippetId) /\
  after `suffix_of` before ++ [data_html data] /\
  JS.length after = Z.min (JS.length before + 1) (maxVersionHistory cfg).
Proof.
  intros Hmax Hid before after.
  destruct (saveSnippet_cached cfg snippetId data env st (or_introl Hid)) as (_ & Hcache).
  subst after. unfold cached_contents. rewrite Hcache. cbn [default].
  split; [eauto|]. split.
  - destruct (append_version_suffix cfg (snippet_before snippetId env st)
                (new_version (snippet_before snippetId env st) data (now env)))
      as [front Hfront].
    exists (html <$> front). subst before.
    apply (f_equal (fmap html)) in Hfront. rewrite !fmap_app in Hfront. exact Hfront.
  - pose proof (append_version_length cfg (snippet_before snippetId env st)
                  (new_version (snippet_before snippetId env st) data (now env)) Hmax) as Hl.
    subst before. unfold JS.length in *. rewrite !length_fmap. exact Hl.
Qed.

(** What a run of saves maintains: the cached contents are a tail of the
    saved contents (behind whatever the snippet held before), and their
    number climbs by one per save until it reaches the limit. *)
Lemma run_saves_invariant cfg snippetId st script :
  1 <= maxVersionHistory cfg ->
  JS.inherited snippetId = false ->
  saves_only snippetId script = true ->
  let st' := run cfg script st in
  let saved := saved_contents script in
  (cache st' = None -> saved = []) /\
  (saved <> [] -> is_Some (cached st' snippetId)) /\
  (exists prefix, cached_contents st' snippetId `suffix_of` prefix ++ saved) /\
  Z.min (JS.length saved) (maxVersionHistory cfg) <= JS.length (cached_contents st' snippetId) /\
  (saved <> [] -> JS.length (cached_contents st' snippetId) <= maxVersionHistory cfg).
Proof.
  intros Hmax Hid. induction script as [|[a env] script IH] using rev_ind; intros Hsaves.
  - cbn. repeat split; try congruence.
    + exists (cached_contents st snippetId). rewrite app_nil_r. reflexivity.
    + unfold JS.length. cbn [length]. lia.
  - unfold saves_only in Hsaves. rewrite forallb_app in Hsaves.
    apply andb_prop in Hsaves as [Hrest Hlast]. cbn in Hlast.
    specialize (IH Hrest). cbv zeta in IH.
    destruct IH as (Hnone & Hsome & [prefix Hsuffix] & Hlow & Hhigh).
    cbv zeta. rewrite run_app. unfold saved_contents. rewrite flat_map_app.
    fold (saved_contents script). cbn [run flat_map fst].
    set (st1 := run cfg script st) in *.
    destruct a as [i data| | | | |ok]; try discriminate.
    + (* a save *)
      rewrite andb_true_r in Hlast. apply bool_decide_eq_true in Hlast. subst i.
      cbn [perform]. rewrite post_forget, app_nil_r.
      destruct (saveSnippet_contents cfg snippetId data env st1 Hmax Hid) as (Hin & Hsuf & Hlen).
      set (st2 := post (saveSnippet cfg snippetId data env st1)) in *.
      assert (Hcached2 : cache st2 <> None).
      { destruct Hin as [s Hs]. unfold cached in Hs. destruct (cache st2); [discriminate|].
        cbn in Hs. discriminate. }
      split; [intros H; contradiction|]. split; [intros _; exact Hin|].
      destruct (cache st1) as [c1|] eqn:Hc1.
      * (* cache already populated: the save starts from the cached snippet *)
        assert (Hbefore : html <$> versions (snippet_before snippetId env st1)
                          = cached_contents st1 snippetId).
        { unfold snippet_before. rewrite (getAllSnippets_post_hit env st1 c1 Hc1). reflexivity. }
        rewrite Hbefore in Hsuf, Hlen.
        split; [|split].
        -- exists prefix. rewrite app_assoc. etransitivity; [exact Hsuf|].
           apply suffix_app. exact Hsuffix.
        -- rewrite Hlen. unfold JS.length in *. rewrite length_app. cbn [length]. lia.
        -- intros _. rewrite Hlen. lia.
      * (* first save: it populates the cache *)
        rewrite (Hnone eq_refl) in *. cbn [app].
        split; [|split].
        -- exists (html <$> versions (snippet_before snippetId env st1)). exact Hsuf.
        -- rewrite Hlen. unfold JS.length. cbn [length]. lia.
        -- intros _. rewrite Hlen. lia.
    + (* a push settles *)
      cbn [perform]. rewrite app_nil_r.
      destruct (background_settle_spec ok env st1) as (_ & Hcache & _).
      assert (Hcached : forall k, cached (post (background_settle ok env st1)) k = cached st1 k)
        by (intros k; unfold cached; rewrite Hcache; reflexivity).
      unfold cached_contents. rewrite Hcached, Hcache.
      split; [exact Hnone|]. split; [exact Hsome|].
      split; [exists prefix; exact Hsuffix|]. split; [exact Hlow|exact Hhigh].
Qed.

(** X20. After a run of more than [maxVersionHistory] saves of one id
    (limit at least 1, the id not the name of a member collections
    inherit), from any state, the cached snippet has exactly
    [maxVersionHistory] versions, their contents are the last
    [maxVersionHistory] saved contents in order, and the last one is the
    content saved last. *)
Theorem saves_beyond_limit_keep_last cfg snippetId script st :
  1 <= maxVersionHistory cfg ->
  JS.inherited snippetId = false ->
  saves_only snippetId script = true ->
  maxVersionHistory cfg < JS.length (saved_contents script) ->
  exists snippet,
    cached (run cfg script st) snippetId = Some snippet /\
    JS.length (versions snippet) = maxVersionHistory cfg /\
    html <$> versions snippet =
      drop (length (saved_contents script) - Z.to_nat (maxVersionHistory cfg))
           (saved_contents script) /\
    html <$> last (versions snippet) = last (saved_contents script).
Proof.
  intros Hmax Hid Hsaves Hmany.
  destruct (run_saves_invariant cfg snippetId st script Hmax Hid Hsaves)
    as (_ & Hsome & [prefix Hsuffix] & Hlow & Hhigh).
  assert (Hne : saved_contents script <> []).
  { intros Hnil. rewrite Hnil in Hmany. unfold JS.length in Hmany. cbn in Hmany. lia. }
  destruct (Hsome Hne) as [snippet Hsnippet]. specialize (Hhigh Hne).
  unfold cached_contents in *. rewrite Hsnippet in *.
  cbn [default from_option Datatypes.id] in *.
  unfold JS.length in *. rewrite length_fmap in *.
  assert (Hlen : Z.of_nat (length (versions snippet)) = maxVersionHistory cfg) by lia.
  assert (Hdrop : html <$> versions snippet =
                  drop (length (saved_contents script) - Z.to_nat (maxVersionHistory cfg))
                       (saved_contents script)).
  { replace (Z.to_nat (maxVersionHistory cfg)) with (length (html <$> versions snippet))
      by (rewrite length_fmap; lia).
    apply (suffix_app_drop _ prefix); [exact Hsuffix|]. rewrite length_fmap. lia. }
  exists snippet. split; [reflexivity|]. split; [exact Hlen|]. split; [exact Hdrop|].
  rewrite <- fmap_last, Hdrop. apply last_drop_lt. lia.
Qed.

(** Three saves under a limit of 2, the first push settling in between:
    "B" and "C" are kept. *)
Lemma saves_beyond_limit_keep_last_witness :
  let script := [(ASave "a" (edit "A"), env_ok); (ASettle false, env_ok);
                 (ASave "a" (edit "B"), env_put_fails); (ASave "a" (edit "C"), env_ok)] in
  1 <= maxVersionHistory CONFIG2 /\
  JS.inherited "a" = false /\
  saves_only "a" script = true /\
  maxVersionHistory CONFIG2 < JS.length (saved_contents script) /\
  exists snippet,
    cached (run CONFIG2 script initial) "a" = Some snippet /\
    html <$> versions snippet = ["B"; "C"].
Proof.
  cbv zeta.
  split; [cbn; lia|]. split; [reflexivity|].
  split; [vm_compute; reflexivity|]. split; [vm_compute; reflexivity|].
  destruct (saves_beyond_limit_keep_last CONFIG2 "a"
              [(ASave "a" (edit "A"), env_ok); (ASettle false, env_ok);
               (ASave "a" (edit "B"), env_put_fails); (ASave "a" (edit "C"), env_ok)]
              initial)
    as (snippet & Hcached & _ & Hcontents & _);
    [cbn; lia|reflexivity|vm_compute; reflexivity|vm_compute; reflexivity|].
  exists snippet. split; [exact Hcached|exact Hcontents].
Defined.

(** C4. The code at the failing input: "constructor" is an id the sanitiser
    lets through; a plain object answers for it with the inherited member,
    so under a limit of 2 each of three saves of it is rejected with a
    TypeError after the read, and no snippet is cached under that id. *)
Theorem saves_of_inherited_name_are_rejected :
  let save content := (ASave "constructor" (edit content), env_ok) in
  let script := [save "A"; save "B"; save "C"] in
  Utils.sanitizeSnippetId "constructor" = "constructor" /\
  saves_only "constructor" script = true /\
  maxVersionHistory CONFIG2 < JS.length (saved_contents script) /\
  res (saveSnippet CONFIG2 "constructor" (edit "A") env_ok initial) = Err JS.TypeError /\
  res (saveSnippet CONFIG2 "constructor" (edit "C") env_ok
         (run CONFIG2 [save "A"; save "B"] initial)) = Err JS.TypeError /\
  cached (run CONFIG2 script initial) "constructor" = None.
Proof.
  cbv zeta. repeat split; vm_compute; reflexivity.
Qed.

(** ** Auto-save *)

(** The debounced function keeps one timer: a call re-arms it with the new
    arguments whatever was pending, for whichever region. *)
Lemma debounce_call_replaces_pending {A} (wait t : Z) (a : A) (timeout : option (Timer A)) :
  Debounce.call wait t a timeout = Some (mkTimer (t + wait) a).
Proof. reflexivity. Qed.

(** C5. The code at the failing input: region B is edited at 0 ms and
    region A at 1000 ms, with the 2000 ms delay. Left alone, B's save fires
    at 2000 ms; with the edit on A it does not: at 2000 ms nothing has been
    saved, and the only save ever issued is A's at 3000 ms, so B's content
    never reaches the store. *)
Theorem edit_on_one_region_cancels_save_of_other :
  let edits := [(0, 2%nat, "<p>b1</p>"); (1000, 1%nat, "<p>a1</p>")] in
  autoSaved (play_until CONFIG env_ok [(0, 2%nat, "<p>b1</p>")] 2000 two_regions)
    = [mkAutoSave 2000 "region-b" "<p>b1</p>"] /\
  debouncedSave (play CONFIG env_ok edits two_regions)
    = Some (mkTimer 3000 ("region-a", 1%nat)) /\
  autoSaved (play_until CONFIG env_ok edits 2000 two_regions) = [] /\
  autoSaved (play_until CONFIG env_ok edits 10000 two_regions)
    = [mkAutoSave 3000 "region-a" "<p>a1</p>"] /\
  cached (storage (play_until CONFIG env_ok edits 10000 two_regions)) "region-b" = None.
Proof.
  cbv zeta. repeat split; vm_compute; reflexivity.
Qed.

(** * Further properties of the code *)

(** ** Snippet ids *)

Lemma sanitize_unit_clean (c : Ascii.ascii) :
  Utils.id_unit (if Utils.id_unit (Utils.toLowerCase_unit c)
                 then Utils.toLowerCase_unit c else Utils.hyphen) = true.
Proof. destruct (Utils.id_unit (Utils.toLowerCase_unit c)) eqn:H; [exact H|reflexivity]. Qed.

Lemma clean_unit_kept (c : Ascii.ascii) :
  Utils.id_unit c = true ->
  (if Utils.id_unit (Utils.toLowerCase_unit c)
   then Utils.toLowerCase_unit c else Utils.hyphen) = c.
Proof.
  destruct c as [[] [] [] [] [] [] [] []]; intros H; try discriminate H; reflexivity.
Qed.

Lemma sanitize_cons c rest :
  Utils.sanitizeSnippetId (String c rest) =
  String (if Utils.id_unit (Utils.toLowerCase_unit c)
          then Utils.toLowerCase_unit c else Utils.hyphen)
         (Utils.sanitizeSnippetId rest).
Proof. reflexivity. Qed.

Lemma sanitize_units_clean (id : string) :
  Utils.id_units (Utils.sanitizeSnippetId id) = true.
Proof.
  induction id as [|c rest IH]; [reflexivity|].
  rewrite sanitize_cons. cbn [Utils.id_units].
  rewrite sanitize_unit_clean, IH. reflexivity.
Qed.

(** X1. [sanitizeSnippetId] turns an ASCII string into one of the same
    length whose characters all are lower-case letters, digits, '-' or '_'. *)
Theorem sanitizeSnippetId_alphabet (id : string) :
  Utils.ascii_only id = true ->
  Utils.id_units (Utils.sanitizeSnippetId id) = true /\
  String.length (Utils.sanitizeSnippetId id) = String.length id.
Proof.
  intros _. split; [apply sanitize_units_clean|].
  induction id as [|c rest IH]; [reflexivity|].
  rewrite sanitize_cons. cbn [String.length]. rewrite IH. reflexivity.
Qed.

Lemma sanitizeSnippetId_alphabet_witness :
  Utils.ascii_only "Hero Banner #2" = true /\
  Utils.sanitizeSnippetId "Hero Banner #2" = "hero-banner--2" /\
  Utils.id_units (Utils.sanitizeSnippetId "Hero Banner #2") = true.
Proof.
  split; [reflexivity|]. split; [reflexivity|].
  apply (sanitizeSnippetId_alphabet "Hero Banner #2"). reflexivity.
Defined.

(** X2. On ASCII input [sanitizeSnippetId] leaves a string as it is exactly
    when the string already consists of lower-case letters, digits, '-' and
    '_' only, and sanitising twice gives what sanitising once gives. *)
Theorem sanitizeSnippetId_fixed_points (id : string) :
  Utils.ascii_only id = true ->
  (Utils.sanitizeSnippetId id = id <-> Utils.id_units id = true) /\
  Utils.sanitizeSnippetId (Utils.sanitizeSnippetId id) = Utils.sanitizeSnippetId id.
Proof.
  intros Hascii.
  assert (Hkept : forall s, Utils.id_units s = true -> Utils.sanitizeSnippetId s = s).
  { induction s as [|c rest IH]; [reflexivity|].
    cbn [Utils.id_units]. intros [Hc Hrest]%andb_prop.
    rewrite sanitize_cons, (clean_unit_kept c Hc), (IH Hrest). reflexivity. }
  split; [split|].
  - intros Heq. rewrite <- Heq. apply sanitize_units_clean.
  - apply Hkept.
  - apply Hkept. apply sanitize_units_clean.
Qed.

Lemma sanitizeSnippetId_fixed_points_witness :
  Utils.ascii_only "Footer_CTA" = true /\
  Utils.sanitizeSnippetId "Footer_CTA" = "footer_cta" /\
  Utils.sanitizeSnippetId (Utils.sanitizeSnippetId "Footer_CTA") = Utils.sanitizeSnippetId "Footer_CTA".
Proof.
  split; [reflexivity|]. split; [reflexivity|].
  apply (sanitizeSnippetId_fixed_points "Footer_CTA"). reflexivity.
Defined.

(** ** The remote answer *)


(** ** Population of the cache *)

(** The whole outcome of [getAllSnippets] on an empty cache. *)
Lemma getAllSnippets_miss env st :
  cache st = None ->
  getAllSnippets env st =
  match apiResponse env with
  | Some data =>
      mkOutcome (Ok (mkSnippets (nextOid st) (parsed data)))
                (mkState (Some (mkSnippets (nextOid st) (parsed data))) (syncInProgress st)
                         (local_after env (parsed data) st) (S (nextOid st)))
                (EvFetch :: response_errors data ++ local_write env (parsed data))
  | None =>
      mkOutcome (Ok (mkSnippets (nextOid st) (stored st)))
                (mkState (Some (mkSnippets (nextOid st) (stored st))) (syncInProgress st)
                         (localStorage st) (S (nextOid st)))
                (EvFetch :: EvLocalGet ::
                 match localStorage st with
                 | Some Malformed => [EvError "Failed to load from localStorage"]
                 | _ => []
                 end)
  end.
Proof.
  intros Hc. unfold getAllSnippets, stored, local_after, local_write. run_M. rewrite Hc.
  destruct (apiResponse env) as [data|].
  - rewrite parseAPIResponse_run.
    destruct (setItemOk env); cbn; rewrite ?app_nil_r; reflexivity.
  - destruct (localStorage st) as [[|c]|] eqn:Hl; cbn; rewrite ?Hl; reflexivity.
Qed.


Lemma getAllSnippets_trace_hit env st c :
  cache st = Some c -> trace (getAllSnippets env st) = [].
Proof. intros Hc. rewrite (getAllSnippets_hit _ _ _ Hc). reflexivity. Qed.

Lemma local_write_fetches env d : fetches (local_write env d) = 0%nat.
Proof. unfold local_write. destruct (setItemOk env); reflexivity. Qed.

Lemma fetches_app t1 t2 : fetches (t1 ++ t2) = (fetches t1 + fetches t2)%nat.
Proof.
  induction t1 as [|e t1 IH]; [reflexivity|].
  destruct e; cbn; rewrite IH; reflexivity.
Qed.

Lemma in_flight_app busy t1 t2 :
  in_flight_after busy (t1 ++ t2) =
  match in_flight_after busy t1 with
  | Some busy' => in_flight_after busy' t2
  | None => None
  end.
Proof.
  revert busy. induction t1 as [|e t1 IH]; intros busy; [reflexivity|].
  destruct e, busy; cbn; try apply IH; reflexivity.
Qed.

Lemma local_write_in_flight busy env d :
  in_flight_after busy (local_write env d) = Some busy.
Proof. unfold local_write. destruct (setItemOk env); reflexivity. Qed.

Lemma response_errors_in_flight busy data :
  in_flight_after busy (response_errors data) = Some busy.
Proof.
  destruct data as [|items|c]; try reflexivity. cbn [response_errors].
  induction items as [|item rest IH]; [reflexivity|].
  cbn [parse_errors flat_map]. fold (parse_errors rest).
  destruct (customContent item); cbn; exact IH.
Qed.

Lemma getAllSnippets_in_flight busy env st :
  in_flight_after busy (trace (getAllSnippets env st)) = Some busy.
Proof.
  destruct (cache st) as [c|] eqn:Hc.
  - rewrite (getAllSnippets_trace_hit env st c Hc). reflexivity.
  - rewrite (getAllSnippets_miss env st Hc).
    destruct (apiResponse env) as [data|]; cbn [trace in_flight_after].
    + rewrite in_flight_app, response_errors_in_flight. apply local_write_in_flight.
    + destruct (localStorage st) as [[|?]|]; reflexivity.
Qed.

Lemma getAllSnippets_mirrored env st :
  mirrored st -> setItemOk env = true -> mirrored (post (getAllSnippets env st)).
Proof.
  intros Hm Hok. destruct (cache st) as [c|] eqn:Hc.
  - rewrite (getAllSnippets_post_hit env st c Hc). exact Hm.
  - rewrite (getAllSnippets_miss env st Hc).
    intros c' Hc'. unfold stored at 1.
    destruct (apiResponse env) as [data|]; cbn [post cache localStorage] in Hc' |- *;
      injection Hc' as <-; cbn [props].
    + unfold local_after. rewrite Hok. reflexivity.
    + reflexivity.
Qed.

Lemma trace_forget {A} (m : M A) env st : trace (forget m env st) = trace (m env st).
Proof.
  unfold forget, mbind, mret, M_bind, M_ret.
  destruct (m env st) as [[a|e] st1 tr1]; cbn; [apply app_nil_r|reflexivity].
Qed.

Lemma background_settle_trace ok env st :
  trace (background_settle ok env st) =
  if syncInProgress st
  then EvPutDone ok ::
       (if ok then [] else [EvError "Failed to save to API"; EvError "Failed to save to API"])
  else [].
Proof.
  unfold background_settle. run_M.
  destruct (syncInProgress st); [|reflexivity]. destruct ok; reflexivity.
Qed.

(** A save either is rejected after the read, or commits a collection and
    leaves a push in flight. *)
Lemma saveSnippet_cases cfg snippetId data env st :
  let g := getAllSnippets env st in
  let o := saveSnippet cfg snippetId data env st in
  (post o = post g /\ trace o = trace g) \/
  (exists n c',
     cache (post o) = Some (mkSnippets n c') /\
     localStorage (post o) = local_after env c' (post g) /\
     syncInProgress (post o) = true /\
     trace o = trace g ++ local_write env c' ++
               (if syncInProgress st then [] else [EvPut c'])).
Proof.
  intros g o.
  destruct (saveSnippet_spec cfg snippetId data env st) as (c & Hg & Hsave).
  destruct (saveSnippet_rejected cfg snippetId data env st) as (c2 & Hg2 & Hrej).
  rewrite Hg in Hg2. injection Hg2 as <-.
  destruct (JS.member (props c) snippetId) eqn:Hmember.
  - right. destruct Hsave as (_ & Hcache & Hlocal & Hsync & Htrace); [discriminate|].
    eexists _, _. repeat split; eassumption.
  - left. destruct (Hrej eq_refl) as (_ & Hpost & Htrace). split; assumption.
  - right. destruct Hsave as (_ & Hcache & Hlocal & Hsync & Htrace); [discriminate|].
    eexists _, _. repeat split; eassumption.
Qed.

(** What one call of a script does, in the three respects the invariants
    below need: it leaves the store alone, or settles the push in flight, or
    only reads, or commits a collection to the cache and to localStorage and
    then pushes within the single-flight rule. *)
Lemma perform_effect cfg a env st :
  let o := perform cfg a env st in
  let g := getAllSnippets env st in
  (post o = st /\ trace o = []) \/
  (syncInProgress st = true /\ cache (post o) = cache st /\
   localStorage (post o) = localStorage st /\ syncInProgress (post o) = false /\
   exists ok, trace o = EvPutDone ok ::
     (if ok then [] else [EvError "Failed to save to API"; EvError "Failed to save to API"])) \/
  (post o = post g /\ trace o = trace g) \/
  (exists n c' pushed,
     cache (post o) = Some (mkSnippets n c') /\
     localStorage (post o) = local_after env c' (post g) /\
     trace o = trace g ++ local_write env c' ++ pushed /\
     in_flight_after (syncInProgress st) pushed = Some (syncInProgress (post o)) /\
     fetches pushed = 0%nat).
Proof.
  intros o g. subst o. destruct a as [i data|i|i k|blob| |ok]; cbn [perform].
  - (* save *)
    rewrite post_forget, trace_forget.
    destruct (saveSnippet_cases cfg i data env st)
      as [[Hpost Htrace]|(n & c' & Hcache & Hlocal & Hsync & Htrace)].
    + right; right; left. split; assumption.
    + right; right; right.
      eexists _, _, _. split; [exact Hcache|]. split; [exact Hlocal|]. split; [exact Htrace|].
      rewrite Hsync. destruct (syncInProgress st); split; reflexivity.
  - (* delete *)
    right; right; right.
    destruct (deleteSnippet_spec i env st) as (c & _ & _ & Hcache & Hlocal & Hsync & Htrace).
    eexists _, _, _. split; [exact Hcache|]. split; [exact Hlocal|]. split; [exact Htrace|].
    rewrite Hsync. unfold awaited_push.
    destruct (syncInProgress st); [split; reflexivity|]. destruct (putOk env); split; reflexivity.
  - (* restore *)
    rewrite post_forget, trace_forget.
    destruct (restoreVersion_spec i k env st) as (c & _ & Hcase).
    destruct (props c !! i ≫= _) as [[snippet v]|].
    + right; right; right. destruct Hcase as (_ & Hcache & Hlocal & Hsync & Htrace).
      eexists _, _, _. split; [exact Hcache|]. split; [exact Hlocal|]. split; [exact Htrace|].
      rewrite Hsync. unfold awaited_push.
      destruct (syncInProgress st); [split; reflexivity|]. destruct (putOk env); split; reflexivity.
    + right; right; left. destruct Hcase as (_ & Hpost & Htrace). split; assumption.
  - (* import *)
    destruct blob as [|incoming]; [left; split; reflexivity|].
    right; right; right.
    destruct (importSnippets_spec incoming env st) as (c & _ & _ & Hcache & Hlocal & Hsync & Htrace).
    eexists _, _, _. split; [exact Hcache|]. split; [exact Hlocal|]. split; [exact Htrace|].
    rewrite Hsync. unfold awaited_push.
    destruct (syncInProgress st); [split; reflexivity|]. destruct (putOk env); split; reflexivity.
  - (* read *)
    right; right; left. rewrite post_forget, trace_forget. split; reflexivity.
  - (* settle *)
    destruct (syncInProgress st) eqn:Hs.
    + right; left. destruct (background_settle_spec ok env st) as (_ & Hcache & Hlocal & Hsync).
      split; [reflexivity|]. split; [exact Hcache|]. split; [exact Hlocal|]. split; [exact Hsync|].
      exists ok. rewrite background_settle_trace, Hs. reflexivity.
    + left. split; [|rewrite background_settle_trace, Hs; reflexivity].
      unfold background_settle. run_M. rewrite Hs. reflexivity.
Qed.

Lemma run_trace_cons cfg a env rest st :
  run_trace cfg ((a, env) :: rest) st =
  trace (perform cfg a env st) ++ run_trace cfg rest (post (perform cfg a env st)).
Proof. cbn [run_trace]. destruct (perform cfg a env st) as [r st' tr]. reflexivity. Qed.

Lemma getAllSnippets_cached env st :
  cache (post (getAllSnippets env st)) <> None /\
  syncInProgress (post (getAllSnippets env st)) = syncInProgress st.
Proof.
  with_collection env st c st1 tr1 Hg Hcache Hsync. rewrite Hg. cbn.
  split; [congruence|exact Hsync].
Qed.

(** ** Invariants of scripts *)

Lemma perform_mirrored cfg a env st :
  mirrored st -> setItemOk env = true -> mirrored (post (perform cfg a env st)).
Proof.
  intros Hm Hok.
  destruct (perform_effect cfg a env st)
    as [[Hpost _]|[(_ & Hcache & Hlocal & _)|[[Hpost _]|(n & c' & pushed & Hcache & Hlocal & _)]]].
  - rewrite Hpost. exact Hm.
  - intros c Hc. unfold stored. rewrite Hlocal. rewrite Hcache in Hc. apply (Hm c Hc).
  - rewrite Hpost. apply getAllSnippets_mirrored; assumption.
  - intros c Hc. rewrite Hcache in Hc. injection Hc as <-.
    unfold stored. rewrite Hlocal. unfold local_after. rewrite Hok. reflexivity.
Qed.

(** X5. As long as localStorage accepts the writes, the stored item always
    parses to the cached collection, after any sequence of saves, deletes,
    restores, imports, reads and settling pushes; so a page loaded again
    while the API is unreachable gets exactly the collection the cache
    held. *)
Theorem localStorage_mirrors_cache cfg script : forall st,
  mirrored st ->
  writable script = true ->
  mirrored (run cfg script st) /\
  forall env c,
    cache (run cfg script st) = Some c ->
    apiData env = None ->
    exists o, res (getAllSnippets env (reload (run cfg script st))) = Ok o /\
              props o = props c.
Proof.
  assert (Hinv : forall st, mirrored st -> writable script = true -> mirrored (run cfg script st)).
  { induction script as [|[a env] rest IH]; intros st Hm Hw; [exact Hm|].
    cbn [writable forallb snd] in Hw. apply andb_prop in Hw as [Hok Hrest].
    cbn [run]. apply IH; [|exact Hrest]. apply perform_mirrored; assumption. }
  intros st Hm Hw. split; [apply Hinv; assumption|].
  intros env c Hc Hoff.
  assert (Hnone : apiResponse env = None).
  { unfold apiData in Hoff. destruct (apiResponse env); [discriminate|reflexivity]. }
  rewrite (getAllSnippets_miss env (reload (run cfg script st)) eq_refl), Hnone.
  eexists. split; [reflexivity|]. cbn [props].
  symmetry. apply (Hinv st Hm Hw c Hc).
Qed.

Lemma perform_fetches cfg a env st c :
  cache st = Some c ->
  fetches (trace (perform cfg a env st)) = 0%nat /\
  exists c', cache (post (perform cfg a env st)) = Some c'.
Proof.
  intros Hc.
  pose proof (getAllSnippets_trace_hit env st c Hc) as Hg.
  pose proof (getAllSnippets_post_hit env st c Hc) as Hgp.
  destruct (perform_effect cfg a env st)
    as [[Hpost Htrace]|[(_ & Hcache & _ & _ & ok & Htrace)|[[Hpost Htrace]|
        (n & c' & pushed & Hcache & _ & Htrace & _ & Hpushed)]]].
  - rewrite Hpost, Htrace. split; [reflexivity|]. exists c. exact Hc.
  - rewrite Htrace, Hcache. split; [destruct ok; reflexivity|]. exists c. exact Hc.
  - rewrite Hpost, Htrace, Hg, Hgp. split; [reflexivity|]. exists c. exact Hc.
  - rewrite Htrace, !fetches_app, Hg, local_write_fetches, Hpushed, Hcache.
    split; [reflexivity|]. eexists. reflexivity.
Qed.

(** X6. Once the cache holds a collection, no call fetches the remote
    collection again: a sequence of saves, deletes, restores, imports, reads
    and settling pushes that starts on a populated cache issues no GET. *)
Theorem populated_cache_never_fetches cfg script : forall st c,
  cache st = Some c ->
  fetches (run_trace cfg script st) = 0%nat.
Proof.
  induction script as [|[a env] rest IH]; intros st c Hc; [reflexivity|].
  rewrite run_trace_cons, fetches_app.
  destruct (perform_fetches cfg a env st c Hc) as (-> & c' & Hc').
  apply (IH _ c' Hc').
Qed.

Lemma perform_in_flight cfg a env st :
  in_flight_after (syncInProgress st) (trace (perform cfg a env st)) =
  Some (syncInProgress (post (perform cfg a env st))).
Proof.
  pose proof (getAllSnippets_cached env st) as [_ Hgs].
  destruct (perform_effect cfg a env st)
    as [[Hpost Htrace]|[(Hbusy & _ & _ & Hsync & ok & Htrace)|[[Hpost Htrace]|
        (n & c' & pushed & _ & _ & Htrace & Hpushed & _)]]].
  - rewrite Hpost, Htrace. reflexivity.
  - rewrite Htrace, Hbusy, Hsync. destruct ok; reflexivity.
  - rewrite Hpost, Htrace, Hgs. apply getAllSnippets_in_flight.
  - rewrite Htrace, in_flight_app, getAllSnippets_in_flight.
    rewrite in_flight_app, local_write_in_flight. exact Hpushed.
Qed.

(** X7. Over any sequence of calls, no PUT is issued while another is in
    flight, only a PUT in flight settles, and [syncInProgress] is set exactly
    when a PUT is in flight. *)
Theorem pushes_are_single_flight cfg script : forall st,
  in_flight_after (syncInProgress st) (run_trace cfg script st) =
  Some (syncInProgress (run cfg script st)).
Proof.
  induction script as [|[a env] rest IH]; intros st; [reflexivity|].
  rewrite run_trace_cons, in_flight_app, perform_in_flight. cbn [run]. apply IH.
Qed.

(** ** How the calls compose *)

Lemma cached_post_getAll env st c :
  res (getAllSnippets env st) = Ok c ->
  forall k, cached (post (getAllSnippets env st)) k = props c !! k.
Proof.
  with_collection env st c' st1 tr1 Hg Hcache Hsync. rewrite Hg. cbn.
  intros [= <-] k. unfold cached. rewrite Hcache. reflexivity.
Qed.

(** A save leaves the cached entry of every other id alone, whether it
    commits or is rejected. *)
Lemma saveSnippet_other cfg snippetId data env st k :
  k <> snippetId ->
  cached (post (saveSnippet cfg snippetId data env st)) k
  = cached (post (getAllSnippets env st)) k.
Proof.
  intros Hne.
  destruct (saveSnippet_spec cfg snippetId data env st) as (c & Hg & Hsave).
  destruct (saveSnippet_rejected cfg snippetId data env st) as (c2 & Hg2 & Hrej).
  rewrite Hg in Hg2. injection Hg2 as <-.
  rewrite (cached_post_getAll env st c Hg).
  destruct (JS.member (props c) snippetId) eqn:Hmember.
  2: { destruct (Hrej eq_refl) as (_ & Hpost & _). rewrite Hpost.
       apply (cached_post_getAll env st c Hg). }
  all: destruct Hsave as (_ & Hcache & _); [discriminate|].
  all: unfold cached; rewrite Hcache; cbn; apply lookup_insert_ne; congruence.
Qed.

(** X8. [saveSnippet], [deleteSnippet] and [restoreVersion] on one id
    leave the cached entry of every other id as [getAllSnippets] provides
    it. *)
Theorem other_snippets_untouched cfg snippetId data versionNumber env st k :
  k <> snippetId ->
  let before := cached (post (getAllSnippets env st)) k in
  cached (post (saveSnippet cfg snippetId data env st)) k = before /\
  cached (post (deleteSnippet snippetId env st)) k = before /\
  cached (post (restoreVersion snippetId versionNumber env st)) k = before.
Proof.
  intros Hne before. subst before. split; [|split].
  - apply saveSnippet_other. exact Hne.
  - destruct (deleteSnippet_spec snippetId env st) as (c & Hg & _ & Hcache & _).
    rewrite (cached_post_getAll env st c Hg). unfold cached. rewrite Hcache. cbn.
    apply lookup_delete_ne. congruence.
  - destruct (restoreVersion_spec snippetId versionNumber env st) as (c & Hg & Hcase).
    rewrite (cached_post_getAll env st c Hg).
    destruct (props c !! snippetId ≫= _) as [[snippet v]|].
    + destruct Hcase as (_ & Hcache & _). unfold cached. rewrite Hcache. cbn.
      apply lookup_insert_ne. congruence.
    + destruct Hcase as (_ & Hpost & _). rewrite Hpost.
      apply (cached_post_getAll env st c Hg).
Qed.

Lemma other_snippets_untouched_witness :
  "b" <> "a" /\
  cached (post (deleteSnippet "a" env_put_fails
                  (post (saveSnippet CONFIG "b" (edit "<p>b</p>") env_ok one_saved)))) "b"
  = cached (post (saveSnippet CONFIG "b" (edit "<p>b</p>") env_ok one_saved)) "b".
Proof.
  assert (Hne : "b" <> "a") by discriminate.
  split; [exact Hne|].
  destruct (other_snippets_untouched CONFIG "a" (edit "") 0 env_put_fails
              (post (saveSnippet CONFIG "b" (edit "<p>b</p>") env_ok one_saved)) "b" Hne)
    as (_ & Hdelete & _).
  rewrite Hdelete. vm_compute. reflexivity.
Defined.

(** X9. After [deleteSnippet] the id is gone from the cache, whatever
    became of the push, and the next [saveSnippet] of that id, when it is
    not the name of a member collections inherit, starts a new ledger: one
    version, numbered 0, with the pointer at 0. *)
Theorem save_after_delete_restarts cfg snippetId data env1 env2 st :
  1 <= maxVersionHistory cfg ->
  JS.inherited snippetId = false ->
  let deleted := post (deleteSnippet snippetId env1 st) in
  let o := saveSnippet cfg snippetId data env2 deleted in
  cached deleted snippetId = None /\
  exists v,
    res o = Ok v /\
    version v = 0 /\
    html v = data_html data /\
    cached (post o) snippetId = Some (mkSnippet snippetId [v] 0).
Proof.
  intros Hmax Hid deleted o.
  destruct (deleteSnippet_spec snippetId env1 st) as (c & _ & _ & Hcache & _).
  fold deleted in Hcache.
  assert (Hgone : cached deleted snippetId = None).
  { unfold cached. rewrite Hcache. cbn. apply lookup_delete_eq. }
  split; [exact Hgone|].
  destruct (saveSnippet_cached cfg snippetId data env2 deleted (or_introl Hid))
    as (Hres & Hcached).
  fold o in Hres, Hcached.
  assert (Hbefore : snippet_before snippetId env2 deleted = empty_snippet snippetId).
  { unfold snippet_before. rewrite (getAllSnippets_post_hit env2 deleted _ Hcache), Hgone.
    reflexivity. }
  rewrite Hbefore in Hres, Hcached.
  eexists. split; [exact Hres|]. split; [reflexivity|]. split; [reflexivity|].
  rewrite Hcached. unfold append_version, JS.push, JS.length. cbn.
  replace (Z.of_nat 1 >? maxVersionHistory cfg) with false; [reflexivity|].
  symmetry. rewrite Z.gtb_ltb. apply Z.ltb_ge. lia.
Qed.

Lemma save_after_delete_restarts_witness :
  1 <= maxVersionHistory CONFIG /\
  JS.inherited "a" = false /\
  (fun snippet => version <$> versions snippet) <$> cached two_saved "a" = Some [0; 1] /\
  exists v,
    version v = 0 /\
    cached (post (saveSnippet CONFIG "a" (edit "<p>new</p>") env_ok
                    (post (deleteSnippet "a" env_put_fails two_saved)))) "a"
    = Some (mkSnippet "a" [v] 0).
Proof.
  split; [cbn; lia|]. split; [reflexivity|]. split; [vm_compute; reflexivity|].
  destruct (save_after_delete_restarts CONFIG "a" (edit "<p>new</p>") env_put_fails env_ok two_saved)
    as (_ & v & _ & Hv & _ & Hcached); [cbn; lia|reflexivity|].
  exists v. split; [exact Hv|exact Hcached].
Defined.

(** X10. With a limit of at least 1, a save of an id that is not the name
    of a member collections inherit leaves the snippet with one version
    more than before, capped at the limit: never none, never more than
    [maxVersionHistory]. *)
Theorem saveSnippet_retention cfg snippetId data env st :
  1 <= maxVersionHistory cfg ->
  JS.inherited snippetId = false ->
  exists after,
    cached (post (saveSnippet cfg snippetId data env st)) snippetId = Some after /\
    JS.length (versions after) =
      Z.min (JS.length (versions (snippet_before snippetId env st)) + 1)
            (maxVersionHistory cfg) /\
    1 <= JS.length (versions after) <= maxVersionHistory cfg.
Proof.
  intros Hmax Hid.
  destruct (saveSnippet_cached cfg snippetId data env st (or_introl Hid)) as (_ & Hcached).
  eexists. split; [exact Hcached|].
  pose proof (append_version_length cfg (snippet_before snippetId env st)
                (new_version (snippet_before snippetId env st) data (now env)) Hmax) as Hlen.
  split; [exact Hlen|]. rewrite Hlen. unfold JS.length. lia.
Qed.

Lemma saveSnippet_retention_witness :
  1 <= maxVersionHistory CONFIG2 /\
  JS.inherited "a" = false /\
  exists after,
    cached (post (saveSnippet CONFIG2 "a" (edit "D") env_ok three_saved)) "a" = Some after /\
    JS.length (versions after) = 2.
Proof.
  split; [cbn; lia|]. split; [reflexivity|].
  destruct (saveSnippet_retention CONFIG2 "a" (edit "D") env_ok three_saved)
    as (after & Hcached & Hlen & _); [cbn; lia|reflexivity|].
  exists after. split; [exact Hcached|]. rewrite Hlen. vm_compute. reflexivity.
Defined.

(** X11. An import replaces whole snippets: after it an id of the imported
    data holds the imported snippet, every other id holds what it held, and
    this whether or not the push succeeded. Importing the same data again
    changes no entry. *)
Theorem import_merges_by_snippet incoming env st k :
  let imported := post (importSnippets (Json incoming) true env st) in
  cached imported k =
    match incoming !! k with
    | Some snippet => Some snippet
    | None => cached (post (getAllSnippets env st)) k
    end /\
  forall env', cached (post (importSnippets (Json incoming) true env' imported)) k
               = cached imported k.
Proof.
  intros imported.
  destruct (importSnippets_spec incoming env st) as (c & Hg & _ & Hcache & _).
  fold imported in Hcache.
  assert (Hfirst : cached imported k =
                   match incoming !! k with
                   | Some snippet => Some snippet
                   | None => cached (post (getAllSnippets env st)) k
                   end).
  { rewrite (cached_post_getAll env st c Hg). unfold cached. rewrite Hcache. cbn.
    rewrite lookup_union. destruct (incoming !! k), (props c !! k); reflexivity. }
  split; [exact Hfirst|]. intros env'.
  destruct (importSnippets_spec incoming env' imported) as (c2 & Hg2 & _ & Hcache2 & _).
  rewrite (getAllSnippets_hit env' imported _ Hcache) in Hg2. cbn in Hg2.
  injection Hg2 as <-. unfold cached at 1. rewrite Hcache2. cbn.
  unfold cached. rewrite Hcache. cbn.
  rewrite !lookup_union. destruct (incoming !! k), (props c !! k); reflexivity.
Qed.

(** ** Rendering *)

Lemma renderSnippet_cached {Page} (update : PageUpdate Page) snippetId page env st snippetData :
  cached st snippetId = Some snippetData ->
  let r := renderSnippet update snippetId page env st in
  post r = st /\
  match JS.index (versions snippetData) (currentVersion snippetData) with
  | Some v => res r = update snippetId v page /\ trace r = []
  | None => res r = Ok page /\ trace r = [EvError "No version data for snippet"]
  end.
Proof.
  unfold cached. destruct (cache st) as [c|] eqn:Hc; [|discriminate]. cbn.
  intros Hlook. unfold renderSnippet. run_M.
  rewrite (getAllSnippets_hit env st c Hc), (member_own _ _ _ Hlook).
  destruct (JS.index _ _); cbn; [|repeat split].
  destruct (update snippetId _ page); cbn; repeat split.
Qed.

Lemma index_snoc {A} (arr : list A) (x : A) :
  JS.index (arr ++ [x]) (JS.length arr) = Some x.
Proof.
  unfold JS.index, JS.length.
  replace (_ <? 0) with false by (symmetry; apply Z.ltb_ge; lia).
  rewrite Nat2Z.id. apply list_lookup_middle. reflexivity.
Qed.

(** X13. After a successful [restoreVersion] the pointer is the requested
    index and is valid, and [renderSnippet] hands the returned version to
    the page update for the id: its result is what the update of the page
    with that version gives, the error of the selector included. *)
Theorem restore_then_render {Page} (update : PageUpdate Page)
    snippetId versionNumber page env1 env2 st v :
  res (restoreVersion snippetId versionNumber env1 st) = Ok v ->
  let restored := post (restoreVersion snippetId versionNumber env1 st) in
  (exists snippetData,
     cached restored snippetId = Some snippetData /\
     currentVersion snippetData = versionNumber /\
     JS.index (versions snippetData) (currentVersion snippetData) = Some v) /\
  res (renderSnippet update snippetId page env2 restored) = update snippetId v page.
Proof.
  intros Hok restored.
  destruct (restoreVersion_spec snippetId versionNumber env1 st) as (c & _ & Hcase).
  fold restored in Hcase.
  destruct (props c !! snippetId) as [snippet|]; cbn in Hcase;
    [|destruct Hcase as (Hres & _); rewrite Hres in Hok; discriminate].
  destruct (JS.index (versions snippet) versionNumber) as [v'|] eqn:Hidx; cbn in Hcase;
    [|destruct Hcase as (Hres & _); rewrite Hres in Hok; discriminate].
  destruct Hcase as (Hres & Hcache & _). rewrite Hres in Hok.
  destruct (awaited_result env1 st); [|discriminate]. injection Hok as ->.
  assert (Hcached : cached restored snippetId =
                    Some (mkSnippet (id snippet) (versions snippet) versionNumber)).
  { unfold cached. rewrite Hcache. cbn. apply lookup_insert_eq. }
  split; [eexists; split; [exact Hcached|split; [reflexivity|exact Hidx]]|].
  destruct (renderSnippet_cached update snippetId page env2 restored _ Hcached) as (_ & Hshow).
  cbn [versions currentVersion] in Hshow. rewrite Hidx in Hshow. apply Hshow.
Qed.

Lemma restore_then_render_witness :
  let page := [mkPageElement (Some "a") None "<p>stale</p>";
               mkPageElement (Some "other") None "<p>keep</p>"] in
  exists v,
    res (restoreVersion "a" 0 env_ok two_saved) = Ok v /\
    res (renderSnippet flat_update "a" page env_ok
           (post (restoreVersion "a" 0 env_ok two_saved)))
    = Ok [mkPageElement (Some "a") (Some 0) "<p>one</p>";
          mkPageElement (Some "other") None "<p>keep</p>"].
Proof.
  cbv zeta. eexists. split; [vm_compute; reflexivity|].
  destruct (restore_then_render flat_update "a" 0
              [mkPageElement (Some "a") None "<p>stale</p>";
               mkPageElement (Some "other") None "<p>keep</p>"]
              env_ok env_ok two_saved _ ltac:(vm_compute; reflexivity)) as (_ & Hshow).
  rewrite Hshow. vm_compute. reflexivity.
Defined.

(** X14. After a save that leaves room in the ledger, of an id that is not
    the name of a member collections inherit, [renderSnippet] hands the
    saved version to the page update for the id: its result is what the
    update of the page with the saved content gives. *)
Theorem save_then_render {Page} (update : PageUpdate Page)
    cfg snippetId data page env1 env2 st :
  JS.inherited snippetId = false ->
  JS.length (versions (snippet_before snippetId env1 st)) < maxVersionHistory cfg ->
  let o := saveSnippet cfg snippetId data env1 st in
  exists v,
    res o = Ok v /\
    html v = data_html data /\
    res (renderSnippet update snippetId page env2 (post o)) = update snippetId v page.
Proof.
  intros Hid Hroom o.
  destruct (saveSnippet_cached cfg snippetId data env1 st (or_introl Hid)) as (Hres & Hcached).
  fold o in Hres, Hcached.
  eexists. split; [exact Hres|]. split; [reflexivity|].
  destruct (renderSnippet_cached update snippetId page env2 (post o) _ Hcached) as (_ & Hshow).
  unfold append_version, JS.push in Hshow. cbn [versions currentVersion] in Hshow.
  replace (_ >? _) with false in Hshow.
  - cbn [version new_version] in Hshow. rewrite index_snoc in Hshow. apply Hshow.
  - symmetry. rewrite Z.gtb_ltb. apply Z.ltb_ge.
    unfold JS.length in *. rewrite length_app. cbn. lia.
Qed.

Lemma save_then_render_witness :
  JS.inherited "a" = false /\
  JS.length (versions (snippet_before "a" env_ok one_saved)) < maxVersionHistory CONFIG /\
  res (renderSnippet flat_update "a" [mkPageElement (Some "a") None ""] env_ok
         (post (saveSnippet CONFIG "a" (edit "<p>y</p>") env_ok one_saved)))
  = Ok [mkPageElement (Some "a") (Some 1) "<p>y</p>"].
Proof.
  assert (Hroom : JS.length (versions (snippet_before "a" env_ok one_saved))
                  < maxVersionHistory CONFIG) by (vm_compute; reflexivity).
  split; [reflexivity|]. split; [exact Hroom|].
  destruct (save_then_render flat_update CONFIG "a" (edit "<p>y</p>")
              [mkPageElement (Some "a") None ""]
              env_ok env_ok one_saved eq_refl Hroom) as (v & Hres & _ & Hshow).
  rewrite Hshow. vm_compute in Hres. injection Hres as <-. vm_compute. reflexivity.
Defined.

(** A ledger that is not empty belongs to a snippet the cache holds. *)
Lemma snippet_before_cached snippetId env st :
  1 <= JS.length (versions (snippet_before snippetId env st)) ->
  is_Some (cached (post (getAllSnippets env st)) snippetId).
Proof.
  unfold snippet_before.
  destruct (cached (post (getAllSnippets env st)) snippetId) as [snippet|]; [eauto|].
  cbn. unfold JS.length. cbn. lia.
Qed.

(** X15. After a save on a full ledger (so that it trims), [renderSnippet]
    finds no current version: it leaves the page as it is and logs
    'No version data'. *)
Theorem trimming_save_then_render {Page} (update : PageUpdate Page)
    cfg snippetId data page env1 env2 st :
  1 <= maxVersionHistory cfg ->
  maxVersionHistory cfg <= JS.length (versions (snippet_before snippetId env1 st)) ->
  let r := renderSnippet update snippetId page env2
             (post (saveSnippet cfg snippetId data env1 st)) in
  res r = Ok page /\ trace r = [EvError "No version data for snippet"].
Proof.
  intros Hmax Hfull r.
  assert (Hown : is_Some (cached (post (getAllSnippets env1 st)) snippetId))
    by (apply snippet_before_cached; lia).
  destruct (saveSnippet_cached cfg snippetId data env1 st (or_intror Hown)) as (_ & Hcached).
  destruct (renderSnippet_cached update snippetId page env2 _ _ Hcached) as (_ & Hshow).
  rewrite (append_version_pointer_after_trim cfg _ data (now env1) Hmax Hfull) in Hshow.
  exact Hshow.
Qed.

Lemma trimming_save_then_render_witness :
  1 <= maxVersionHistory CONFIG2 /\
  maxVersionHistory CONFIG2 <= JS.length (versions (snippet_before "a" env_ok three_saved)) /\
  res (renderSnippet flat_update "a" [mkPageElement (Some "a") (Some 2) "C"] env_ok
         (post (saveSnippet CONFIG2 "a" (edit "D") env_ok three_saved)))
  = Ok [mkPageElement (Some "a") (Some 2) "C"].
Proof.
  assert (Hmax : 1 <= maxVersionHistory CONFIG2) by (cbn; lia).
  assert (Hfull : maxVersionHistory CONFIG2
                  <= JS.length (versions (snippet_before "a" env_ok three_saved)))
    by (vm_compute; discriminate).
  split; [exact Hmax|]. split; [exact Hfull|].
  apply (trimming_save_then_render flat_update CONFIG2 "a" (edit "D")
           [mkPageElement (Some "a") (Some 2) "C"] env_ok env_ok three_saved Hmax Hfull).
Defined.

(** ** Bursts of edits *)








(** ** Sync all *)

Lemma contents_tagged_cons snippetId el env elements :
  contents_tagged snippetId ((el, env) :: elements) =
  (if decide (attr_snippet_id el = Some snippetId) then [inner_html el] else [])
  ++ contents_tagged snippetId elements.
Proof. unfold contents_tagged. cbn. destruct (decide _); reflexivity. Qed.










(** ** Clearing and the guard of restore *)


(** X19. The guard of [restoreVersion]. The call fails with 'Version not
    found' exactly when the collection holds the id and the index is
    outside [0, versions.length), or it does not hold the id and the id is
    not the name of a member collections inherit; it fails with a TypeError
    exactly when it does not hold the id and the id is such a name. *)
Theorem restoreVersion_guard snippetId versionNumber env st :
  let before := cached (post (getAllSnippets env st)) snippetId in
  let r := res (restoreVersion snippetId versionNumber env st) in
  (r = Err "Version not found" <->
   match before with
   | Some snippet => ~ (0 <= versionNumber < JS.length (versions snippet))
   | None => JS.inherited snippetId = false
   end) /\
  (r = Err JS.TypeError <-> before = None /\ JS.inherited snippetId = true).
Proof.
  intros before r.
  destruct (restoreVersion_spec snippetId versionNumber env st) as (c & Hg & Hcase).
  subst before r. rewrite (cached_post_getAll env st c Hg).
  unfold guard_error, JS.member in Hcase.
  destruct (props c !! snippetId) as [snippet|]; cbn [mbind option_bind] in Hcase.
  2: { destruct Hcase as (Hres & _). rewrite Hres.
       destruct (JS.inherited snippetId); split; split;
         try discriminate; try tauto; intros [_ ?]; discriminate. }
  assert (Hpush : forall v : Version,
            match awaited_result env st with Ok _ => Ok v | Err e => Err e end
            <> Err "Version not found" /\
            match awaited_result env st with Ok _ => Ok v | Err e => Err e end
            <> Err JS.TypeError).
  { intros v. unfold awaited_result. destruct (_ || _); split; discriminate. }
  unfold JS.index, JS.length in *.
  destruct (versionNumber <? 0) eqn:Hneg; cbn [mbind option_bind] in Hcase.
  - apply Z.ltb_lt in Hneg. destruct Hcase as (Hres & _). rewrite Hres.
    split; split; try discriminate; try lia; try tauto. intros [? _]; discriminate.
  - apply Z.ltb_ge in Hneg.
    destruct (versions snippet !! Z.to_nat versionNumber) as [v|] eqn:Hidx;
      cbn [mbind option_bind] in Hcase.
    + apply lookup_lt_Some in Hidx. destruct Hcase as (Hres & _). rewrite Hres.
      destruct (Hpush v) as [Hnf Hte]. split; split.
      * intros Hr. destruct (Hnf Hr).
      * intros Hout. exfalso. apply Hout. lia.
      * intros Hr. destruct (Hte Hr).
      * intros [? _]; discriminate.
    + apply lookup_ge_None in Hidx. destruct Hcase as (Hres & _). rewrite Hres.
      split; split; try discriminate; try lia; try tauto. intros [? _]; discriminate.
Qed.

Lemma restoreVersion_guard_witness :
  res (restoreVersion "a" 2 env_ok two_saved) = Err "Version not found" /\
  res (restoreVersion "zz" 0 env_ok two_saved) = Err "Version not found" /\
  res (restoreVersion "constructor" 0 env_ok two_saved) = Err JS.TypeError.
Proof.
  split; [|split].
  - apply (restoreVersion_guard "a" 2 env_ok two_saved). vm_compute. intros [_ H]. discriminate H.
  - apply (restoreVersion_guard "zz" 0 env_ok two_saved). vm_compute. reflexivity.
  - apply (restoreVersion_guard "constructor" 0 env_ok two_saved). vm_compute. split; reflexivity.
Defined.

(** ** Further concrete instances *)


(** A save, a restore and a delete of another id on a fresh page, then a
    reload without the API: snippet "a" is back as it was cached. *)
Lemma localStorage_mirrors_cache_witness :
  let script := [(ASave "a" (edit "<p>x</p>"), env_ok); (ASave "a" (edit "<p>y</p>"), env_ok);
                 (ARestore "a" 0, env_put_fails); (ADelete "b", env_ok)] in
  mirrored initial /\
  writable script = true /\
  exists c o,
    cache (run CONFIG script initial) = Some c /\
    res (getAllSnippets env_ok (reload (run CONFIG script initial))) = Ok o /\
    props o = props c.
Proof.
  cbv zeta.
  assert (Hfresh : mirrored initial) by (intros c Hc; discriminate Hc).
  split; [exact Hfresh|]. split; [reflexivity|].
  destruct (localStorage_mirrors_cache CONFIG
              [(ASave "a" (edit "<p>x</p>"), env_ok); (ASave "a" (edit "<p>y</p>"), env_ok);
               (ARestore "a" 0, env_put_fails); (ADelete "b", env_ok)]
              initial Hfresh eq_refl) as (_ & Hreload).
  eexists. 
  destruct (Hreload env_ok _ ltac:(vm_compute; reflexivity) eq_refl) as (o & Hres & Hprops).
  exists o. split; [vm_compute; reflexivity|]. split; [exact Hres|exact Hprops].
Defined.

(** Once two saves have populated the cache, a restore, a delete, a read
    and a further save issue no GET. *)
Lemma populated_cache_never_fetches_witness :
  let script := [(ARestore "a" 0, env_ok); (ADelete "b", env_put_fails); (AGetAll, env_ok);
                 (ASave "c" (edit "<p>c</p>"), env_ok)] in
  (exists c, cache two_saved = Some c) /\
  fetches (run_trace CONFIG script two_saved) = 0%nat.
Proof.
  cbv zeta. split; [eexists; vm_compute; reflexivity|].
  apply (populated_cache_never_fetches CONFIG
           [(ARestore "a" 0, env_ok); (ADelete "b", env_put_fails); (AGetAll, env_ok);
            (ASave "c" (edit "<p>c</p>"), env_ok)]
           two_saved (mkSnippets 0 (stored two_saved))).
  vm_compute. reflexivity.
Defined.

